(** * The Yul assembly stack and the multi-use function collector

    A shallow embedding of [libyul/AssemblyStack.cpp] and of
    [libsolidity/codegen/MultiUseYulFunctionCollector.cpp], with the
    properties their specification states about them.

    Conventions.
    - A failed [yulAssert]/[solAssert] aborts the job: fallible member
      functions return a [result], whose [Fatal] carries the message.
    - Member functions that mutate their object take the object and return
      the new one next to their C++ return value.
    - Collaborators whose code lives elsewhere (parser, analyzer, optimiser
      suite, translator, object compiler, assembler) are variables of the
      section that uses them. *)

From Stdlib Require Import String Ascii List Bool PeanoNat NArith Lia.
From Stdlib Require Import Sorting.Sorted.
Import ListNotations.

Local Open Scope list_scope.
Local Open Scope string_scope.

Set Implicit Arguments.

(* ===================================================================== *)
(** * Fatal errors *)
(* ===================================================================== *)

Inductive result (A : Type) : Type :=
| Ok (a : A)
| Fatal (msg : string).

Arguments Ok {A} a.
Arguments Fatal {A} msg.

Definition bind {A B : Type} (r : result A) (k : A -> result B) : result B :=
  match r with
  | Ok a => k a
  | Fatal msg => Fatal msg
  end.

(** [yulAssert(cond, msg)] and [solAssert(cond, msg)]. *)
Definition assert (cond : bool) (msg : string) : result unit :=
  if cond then Ok tt else Fatal msg.

Declare Scope result_scope.
Delimit Scope result_scope with result.
Notation "'do' x <- r ; k" := (bind r (fun x => k))
  (at level 10, x pattern, r at level 100, k at level 200) : result_scope.
Notation "'check' c 'otherwise' msg ; k" := (bind (assert c msg) (fun _ => k))
  (at level 10, c at level 100, msg at level 100, k at level 200) : result_scope.
Local Open Scope result_scope.

(* ===================================================================== *)
(** * Strings as [std::string] *)
(* ===================================================================== *)

Module Str.

Definition nl : string := String "010" "".
Definition tab : ascii := "009"%char.

(** [std::string(n, c)] *)
Fixpoint fill (n : nat) (c : ascii) : string :=
  match n with
  | 0 => ""
  | S n' => String c (fill n' c)
  end.

Definition empty (s : string) : bool :=
  match s with "" => true | _ => false end.

(** [s.find(needle)], [None] standing for [npos]. *)
Definition find (needle s : string) : option nat := index 0 needle s.

(** [s.find_last_of(c)]. *)
Fixpoint find_last_of (c : ascii) (s : string) : option nat :=
  match s with
  | "" => None
  | String a s' =>
      match find_last_of c s' with
      | Some i => Some (S i)
      | None => if Ascii.eqb a c then Some 0 else None
      end
  end.

(** [s.substr(0, n)] and [s.substr(n, npos)], for [n <= s.size()]. *)
Definition take (n : nat) (s : string) : string := substring 0 n s.
Definition drop (n : nat) (s : string) : string := substring n (String.length s - n) s.

(** [std::string::operator<], bytes compared as unsigned characters. *)
Definition lt (a b : string) : Prop := String.ltb a b = true.

End Str.

(* ===================================================================== *)
(** * The regular expression of [requestedFunctions] *)
(* ===================================================================== *)

(** [function[ \t]+[a-zA-Z0-9_$]+\([^\)]*\)], searched with
    [std::regex_search]: the match reported is the leftmost one.  Each
    repetition ranges over a class that excludes the character the pattern
    requires next, so the longest run is the only one that can be followed
    by a match and no backtracking is involved. *)
Module Regex.

Definition blank (c : ascii) : bool :=
  Ascii.eqb c " " || Ascii.eqb c Str.tab.

Definition between (lo hi : ascii) (c : ascii) : bool :=
  Nat.leb (nat_of_ascii lo) (nat_of_ascii c) && Nat.leb (nat_of_ascii c) (nat_of_ascii hi).

Definition identChar (c : ascii) : bool :=
  between "a" "z" c || between "A" "Z" c || between "0" "9" c
  || Ascii.eqb c "_" || Ascii.eqb c "$".

Definition notClose (c : ascii) : bool := negb (Ascii.eqb c ")").

(** The rest of [s] after its longest prefix of characters in [cls]. *)
Fixpoint skip (cls : ascii -> bool) (s : string) : string :=
  match s with
  | String c s' => if cls c then skip cls s' else s
  | "" => ""
  end.

(** [cls+]: at least one character of the class, then the rest. *)
Definition plus (cls : ascii -> bool) (s : string) : option string :=
  match s with
  | String c s' => if cls c then Some (skip cls s') else None
  | "" => None
  end.

(** A literal prefix. *)
Fixpoint lit (p s : string) : option string :=
  match p, s with
  | "", _ => Some s
  | String a p', String b s' => if Ascii.eqb a b then lit p' s' else None
  | String _ _, "" => None
  end.

Definition matchHere (s : string) : bool :=
  match lit "function" s with
  | None => false
  | Some s1 =>
      match plus blank s1 with
      | None => false
      | Some s2 =>
          match plus identChar s2 with
          | None => false
          | Some s3 =>
              match lit "(" s3 with
              | None => false
              | Some s4 =>
                  match lit ")" (skip notClose s4) with
                  | None => false
                  | Some _ => true
                  end
              end
          end
      end
  end.

(** [regex_search(code, match, functionRegex)] with [match.position()]. *)
Fixpoint search (s : string) : option nat :=
  if matchHere s then Some 0
  else match s with
       | "" => None
       | String _ s' => option_map S (search s')
       end.

End Regex.

(* ===================================================================== *)
(** * [std::map<std::string, std::string>] *)
(* ===================================================================== *)

(** The map is kept as its sequence of entries in iteration order, that
    is, ascending by key. *)
Module StringMap.

Definition t : Type := list (string * string).

Definition empty : t := [].

(** [m.count(k)]: the number of entries under [k]. *)
Definition count (k : string) (m : t) : nat :=
  List.length (filter (fun e => String.eqb (fst e) k) m).

Definition lookup (k : string) (m : t) : option string :=
  option_map snd (List.find (fun e => String.eqb (fst e) k) m).

(** [m[k] = v] *)
Fixpoint assign (k v : string) (m : t) : t :=
  match m with
  | [] => [(k, v)]
  | (k', v') :: m' =>
      match String.compare k k' with
      | Eq => (k, v) :: m'
      | Lt => (k, v) :: (k', v') :: m'
      | Gt => (k', v') :: assign k v m'
      end
  end.

Definition keys (m : t) : list string := map fst m.

(** The class invariant of [std::map]: keys strictly ascending. *)
Definition ordered (m : t) : Prop := StronglySorted Str.lt (keys m).

End StringMap.

(* ===================================================================== *)
(** * [MultiUseYulFunctionCollector] *)
(* ===================================================================== *)

Module Collector.

Definition STUB : string := "<<STUB<<".

(** The collector's only member, and next to it, for the proofs, the
    names whose creator has been called so far (latest first). *)
Record state : Type := mkState {
  m_requestedFunctions : StringMap.t;
  called : list string
}.

Definition setFunction (name code : string) (st : state) : state :=
  mkState (StringMap.assign name code st.(m_requestedFunctions)) st.(called).

Definition noteCall (name : string) (st : state) : state :=
  mkState st.(m_requestedFunctions) (name :: st.(called)).

Definition contains (needle s : string) : bool :=
  match Str.find needle s with Some _ => true | None => false end.

(** ** [requestedFunctions] *)

(** The body of the loop for one entry: the text appended to [result]. *)
Definition withSourceLocation (_sourceLocationComment code : string) : result string :=
  if negb (contains "/// @src" code) && negb (Str.empty _sourceLocationComment) then
    match Regex.search code with
    | None => Fatal ""
    | Some functionStart =>
        let lineStart := Str.find_last_of "010" (Str.take functionStart code) in
        let numTabs :=
          match lineStart with
          | None => 0
          | Some lineStart => functionStart - lineStart - 1
          end in
        Ok (Str.take functionStart code ++
            _sourceLocationComment ++
            Str.nl ++
            Str.fill numTabs Str.tab ++
            Str.drop functionStart code)
    end
  else Ok code.

Fixpoint collect (_sourceLocationComment : string) (entries : StringMap.t)
                 (result_ : string) : result string :=
  match entries with
  | [] => Ok result_
  | (name, code) :: rest =>
      check negb (String.eqb code STUB) otherwise "";
      do text <- withSourceLocation _sourceLocationComment code;
      collect _sourceLocationComment rest (result_ ++ text)
  end.

Definition requestedFunctions (_sourceLocationComment : string) (st : state)
  : result (string * state) :=
  do result_ <- collect _sourceLocationComment st.(m_requestedFunctions) "";
  Ok (result_, mkState StringMap.empty st.(called)).

(** ** [createFunction] *)

(** Modelled from the spec: [joinHumanReadable] (libsolutil) is not among
    the sources; argument and return lists are rendered as comma-joined
    name lists. *)
Definition joinHumanReadable (l : list string) : string := String.concat ", " l.

Definition indent (n : nat) : string := Str.fill n Str.tab.

(** Modelled from the spec: [Whiskers::render] (libsolutil) is not among
    the sources; the definition is rendered as
    [function <name>(<args>) -> <rets> { <body> }], the [-> <rets>] clause,
    guarded by [<?+retParams>], being left out when the rendered return
    list is empty.  The white space around it is that of the template in
    [createFunction]. *)
Definition render (functionName args retParams body : string) : string :=
  Str.nl ++ indent 3 ++ "function " ++ functionName ++ "(" ++ args ++ ")" ++
  (if Str.empty retParams then "" else " -> " ++ retParams) ++ " {" ++
  Str.nl ++ indent 4 ++ body ++
  Str.nl ++ indent 3 ++ "}" ++
  Str.nl ++ indent 2.

(** What a form-B creator hands back: the two vectors it filled and the
    body it returned. *)
Definition parts : Type := (list string * list string * string)%type.

(** A creator is a closure over the collector: it may ask the collector
    for further functions before it returns its text, or fail.  [R] is
    [string] for [function<string()>] and [parts] for
    [function<string(vector<string>&, vector<string>&)>]. *)
Inductive creator (R : Type) : Type :=
| Return (r : R)
| Throw (msg : string)
| Request (_name : string) (_creator : creator string) (next : creator R)
| RequestWith (_name : string) (_creator : creator parts) (next : creator R).

Arguments Throw {R} msg.

(** The two overloads, over the call of the creator. *)
Definition createFunctionBy (call : state -> result (string * state))
  (_name : string) (st : state) : result (string * state) :=
  if Nat.eqb (StringMap.count _name st.(m_requestedFunctions)) 0 then
    let st := noteCall _name (setFunction _name STUB st) in
    do (fun_, st) <- call st;
    check negb (Str.empty fun_) otherwise "";
    check contains ("function " ++ _name ++ "(") fun_
      otherwise "Function not properly named.";
    Ok (_name, setFunction _name fun_ st)
  else Ok (_name, st).

Definition createFunctionWithBy (call : state -> result (parts * state))
  (_name : string) (st : state) : result (string * state) :=
  check negb (Str.empty _name) otherwise "";
  if Nat.eqb (StringMap.count _name st.(m_requestedFunctions)) 0 then
    let st := noteCall _name (setFunction _name STUB st) in
    do (p, st) <- call st;
    let '(arguments, returnParameters, body) := p in
    check negb (Str.empty body) otherwise "";
    Ok (_name,
        setFunction _name
          (render _name (joinHumanReadable arguments)
                  (joinHumanReadable returnParameters) body) st)
  else Ok (_name, st).

Fixpoint run {R : Type} (c : creator R) (st : state) : result (R * state) :=
  match c with
  | Return r => Ok (r, st)
  | Throw msg => Fatal msg
  | Request _name _creator next =>
      do (_, st) <- createFunctionBy (run _creator) _name st;
      run next st
  | RequestWith _name _creator next =>
      do (_, st) <- createFunctionWithBy (run _creator) _name st;
      run next st
  end.

(** [createFunction(_name, function<string()>)] *)
Definition createFunction (_name : string) (_creator : creator string)
  : state -> result (string * state) :=
  createFunctionBy (run _creator) _name.

(** [createFunction(_name, function<string(vector<string>&, vector<string>&)>)] *)
Definition createFunctionWith (_name : string) (_creator : creator parts)
  : state -> result (string * state) :=
  createFunctionWithBy (run _creator) _name.

Definition initial : state := mkState StringMap.empty [].

(** The states a collector can be in between two calls of its member
    functions. *)
Inductive reachable : state -> Prop :=
| reach_initial : reachable initial
| reach_createFunction st _name _creator r st' :
    reachable st ->
    createFunction _name _creator st = Ok (r, st') ->
    reachable st'
| reach_createFunctionWith st _name _creator r st' :
    reachable st ->
    createFunctionWith _name _creator st = Ok (r, st') ->
    reachable st'
| reach_requestedFunctions st _sourceLocationComment r st' :
    reachable st ->
    requestedFunctions _sourceLocationComment st = Ok (r, st') ->
    reachable st'.

(** How often the creator of [name] has been called. *)
Definition calls (name : string) (st : state) : nat :=
  count_occ string_dec st.(called) name.

(** The texts of a list, one after the other. *)
Definition concatenation (texts : list string) : string :=
  fold_right append "" texts.

(** A stored definition is never the empty text, placeholder included. *)
Definition filled (m : StringMap.t) : Prop :=
  Forall (fun e : string * string => snd e <> "") m.

(** Two collectors store the same definitions. *)
Definition sameContents (st1 st2 : state) : Prop :=
  forall name,
    StringMap.lookup name st1.(m_requestedFunctions)
    = StringMap.lookup name st2.(m_requestedFunctions).

(** What calls of creators do to a collector: the map stays ordered and
    filled, and a name that is stored stays stored, without its creator
    being called. *)
Definition extends (st st' : state) : Prop :=
  (StringMap.ordered st.(m_requestedFunctions) ->
   StringMap.ordered st'.(m_requestedFunctions))
  /\ (filled st.(m_requestedFunctions) -> filled st'.(m_requestedFunctions))
  /\ (forall name,
        StringMap.count name st.(m_requestedFunctions) <> 0 ->
        StringMap.count name st'.(m_requestedFunctions) <> 0
        /\ calls name st' = calls name st).

Definition extending {R : Type} (call : state -> result (R * state)) : Prop :=
  forall st r st', call st = Ok (r, st') -> extends st st'.

(** What a call of either overload for [name] that returns has done. *)
Definition requested (name : string) (st : state) (r : string) (st' : state) : Prop :=
  r = name /\ extends st st'
  /\ StringMap.count name st'.(m_requestedFunctions) <> 0
  /\ calls name st' <= S (calls name st).

(** A stored definition whose header sits on a line of its own after
    [n] tabs: [before] ends the previous line, [rest] starts with the
    header. *)
Definition headerLine (before : string) (n : nat) (rest : string) : string :=
  before ++ Str.fill n Str.tab ++ rest.

(** The comment on a line of its own above the header line, both after
    [n] tabs. *)
Definition commentAbove (comment before : string) (n : nat) (rest : string) : string :=
  before ++ Str.fill n Str.tab ++ comment ++ Str.nl ++ Str.fill n Str.tab ++ rest.

(** ** What is stored, while and between requests *)

(** The text stored under [name] declares a function of that name. *)
Definition declares (name code : string) : Prop :=
  contains ("function " ++ name ++ "(") code = true.

(** Every entry is either in progress or declares its function. *)
Definition named (st : state) : Prop :=
  forall name code,
    StringMap.lookup name st.(m_requestedFunctions) = Some code ->
    code = STUB \/ declares name code.

(** A definition that has been generated is still stored, unchanged. *)
Definition keeps (st st' : state) : Prop :=
  forall name code,
    StringMap.lookup name st.(m_requestedFunctions) = Some code ->
    code <> STUB ->
    StringMap.lookup name st'.(m_requestedFunctions) = Some code.

(** The same functions are in progress. *)
Definition sameStubs (st st' : state) : Prop :=
  forall name,
    StringMap.lookup name st.(m_requestedFunctions) = Some STUB
    <-> StringMap.lookup name st'.(m_requestedFunctions) = Some STUB.

Definition proceeds (st st' : state) : Prop :=
  keeps st st' /\ sameStubs st st' /\ (named st -> named st').

Definition proceeding {R : Type} (call : state -> result (R * state)) : Prop :=
  forall st r st', call st = Ok (r, st') -> proceeds st st'.

(** A function name as the pattern of [requestedFunctions] reads it. *)
Definition identifier (name : string) : Prop :=
  name <> "" /\ Regex.skip Regex.identChar name = "".

End Collector.

(* ===================================================================== *)
(** * [AssemblyStack] *)
(* ===================================================================== *)

Module Language.
Inductive t : Type := Assembly | StrictAssembly | Yul | Ewasm.

Definition eqb (a b : t) : bool :=
  match a, b with
  | Assembly, Assembly | StrictAssembly, StrictAssembly
  | Yul, Yul | Ewasm, Ewasm => true
  | _, _ => false
  end.
End Language.

(** Modelled from the spec: [evmasm::LinkerObject] is declared outside the
    sources.  The linked bytes and what is still open in them: link
    references and deploy-time placeholders (immutable references). *)
Record LinkerObject : Type := mkLinkerObject {
  bytecode : string;
  linkReferences : list (nat * string);
  immutableReferences : list (N * (string * list nat))
}.

(** Modelled from the spec: [MachineAssemblyObject] is declared in a
    header that is not among the sources.  Linked bytes, textual form and
    source mappings, as [assembleWithDeployed] fills them in; a null
    [bytecode] or [sourceMappings] pointer is [None], and a
    default-constructed object is [emptyObject]. *)
Record MachineAssemblyObject : Type := mkMachineAssemblyObject {
  mao_bytecode : option LinkerObject;
  mao_assembly : string;
  mao_sourceMappings : option string
}.

Definition emptyObject : MachineAssemblyObject :=
  mkMachineAssemblyObject None "" None.

(** Modelled from the spec: [OptimiserSettings] is declared outside the
    sources; these are the options the stack reads. *)
Record OptimiserSettings : Type := mkOptimiserSettings {
  runYulOptimiser : bool;
  optimizeStackAllocation : bool;
  yulOptimiserSteps : string;
  expectedExecutionsPerDeployment : nat
}.

(** Modelled from the spec: [CharStream] and [Scanner] (liblangutil) are
    not among the sources; the stack uses the name of the stream and
    whether the scanner has one. *)
Record CharStream : Type := mkCharStream {
  cs_source : string;
  cs_name : string
}.

Record Scanner : Type := mkScanner {
  charStream : option CharStream
}.

Module Machine.
Inductive t : Type := EVM | Ewasm.
End Machine.

(** A pointer that must not be null, and the test for it. *)
Definition require {A : Type} (p : option A) (msg : string) : result A :=
  match p with Some a => Ok a | None => Fatal msg end.

Definition present {A : Type} (p : option A) : bool :=
  match p with Some _ => true | None => false end.

Section Stack.

(** The syntax tree of a code block, the analyzer's findings about it, a
    diagnostic, an item of an EVM assembly and the EVM version are
    opaque here. *)
Variables Block AsmAnalysisInfo Error AssemblyItem EVMVersion : Type.

(** ** Dialects *)

(** Modelled from the spec: the dialect classes are declared in headers
    that are not among the sources.  These are the instances
    [languageToDialect] can return; the two EVM instances are of the
    stack-VM family ([EVMDialect]), the Wasm instance and [yulDeprecated]
    are not. *)
Inductive Dialect : Type :=
| strictAssemblyForEVMObjects (_version : EVMVersion)
| EVMDialectTyped_instance (_version : EVMVersion)
| WasmDialect_instance
| yulDeprecated.

(** [dynamic_cast<EVMDialect const*>(&dialect)] *)
Definition asEVMDialect (d : Dialect) : option Dialect :=
  match d with
  | strictAssemblyForEVMObjects _ | EVMDialectTyped_instance _ => Some d
  | WasmDialect_instance | yulDeprecated => None
  end.

Definition languageToDialect (_language : Language.t) (_version : EVMVersion) : Dialect :=
  match _language with
  | Language.Assembly | Language.StrictAssembly => strictAssemblyForEVMObjects _version
  | Language.Yul => EVMDialectTyped_instance _version
  | Language.Ewasm => WasmDialect_instance
  end.

(** ** The object tree *)

(** Modelled from the spec: [Data] and [Object] (libyul/Object.h) are not
    among the sources.  A data node has a name and bytes. *)
Record Data : Type := mkData {
  data_name : string;
  data_bytes : string
}.

(** Modelled from the spec: an IR object has a name, a code block (absent
    before parsing is complete), an ordered sequence of sub-nodes and
    analysis metadata (absent until the analysis has run).  A sub-node is
    a [Data] or an [Object] ([inl] and [inr]), told apart in the code by
    [dynamic_cast<Object*>]. *)
#[warnings="-register-all"] Inductive Object : Type :=
  mkObject (name : string)
           (code : option Block)
           (subObjects : list (Data + Object))
           (analysisInfo : option AsmAnalysisInfo).

Definition ObjectNode : Type := (Data + Object)%type.

Definition name (o : Object) : string := let 'mkObject n _ _ _ := o in n.
Definition code (o : Object) : option Block := let 'mkObject _ c _ _ := o in c.
Definition subObjects (o : Object) : list ObjectNode := let 'mkObject _ _ s _ := o in s.
Definition analysisInfo (o : Object) : option AsmAnalysisInfo :=
  let 'mkObject _ _ _ i := o in i.

(** The object and all objects below it, parents first. *)
Fixpoint objects (o : Object) : list Object :=
  o :: flat_map (fun n : ObjectNode =>
                   match n with
                   | inl _ => []
                   | inr sub => objects sub
                   end) (subObjects o).

(** The objects below a list of sub-nodes. *)
Definition below (nodes : list ObjectNode) : list Object :=
  flat_map (fun n : ObjectNode =>
              match n with inl _ => [] | inr sub => objects sub end) nodes.

Definition hasCode (o : Object) : Prop := present (code o) = true.
Definition hasAnalysisInfo (o : Object) : Prop := present (analysisInfo o) = true.

(** What a run of the analysis leaves of a list of objects, given the
    outcomes for them in order: every object carries the metadata of
    this run, and names and code are as before. *)
Definition analysed (before after : list Object)
  (outcomes : list (bool * AsmAnalysisInfo)) : Prop :=
  map analysisInfo after = map (fun r => Some (snd r)) outcomes
  /\ map name after = map name before
  /\ map code after = map code before.

(** ** The job *)

(** Modelled from the spec: the members of [AssemblyStack] are declared in
    a header that is not among the sources.  Language, EVM version,
    optimiser settings, the scanner, whether the tree has passed the
    analysis, the tree and the diagnostics. *)
Record AssemblyStack : Type := mkAssemblyStack {
  m_language : Language.t;
  m_evmVersion : EVMVersion;
  m_optimiserSettings : OptimiserSettings;
  m_scanner : option Scanner;
  m_analysisSuccessful : bool;
  m_parserResult : option Object;
  m_errors : list Error   (* the list [m_errorReporter] reports into *)
}.

Definition setErrors (st : AssemblyStack) (errs : list Error) : AssemblyStack :=
  mkAssemblyStack st.(m_language) st.(m_evmVersion) st.(m_optimiserSettings)
    st.(m_scanner) st.(m_analysisSuccessful) st.(m_parserResult) errs.

Definition setScanner (st : AssemblyStack) (s : option Scanner) : AssemblyStack :=
  mkAssemblyStack st.(m_language) st.(m_evmVersion) st.(m_optimiserSettings)
    s st.(m_analysisSuccessful) st.(m_parserResult) st.(m_errors).

Definition setAnalysisSuccessful (st : AssemblyStack) (b : bool) : AssemblyStack :=
  mkAssemblyStack st.(m_language) st.(m_evmVersion) st.(m_optimiserSettings)
    st.(m_scanner) b st.(m_parserResult) st.(m_errors).

Definition setParserResult (st : AssemblyStack) (o : option Object) : AssemblyStack :=
  mkAssemblyStack st.(m_language) st.(m_evmVersion) st.(m_optimiserSettings)
    st.(m_scanner) st.(m_analysisSuccessful) o st.(m_errors).

Definition setLanguage (st : AssemblyStack) (l : Language.t) : AssemblyStack :=
  mkAssemblyStack l st.(m_evmVersion) st.(m_optimiserSettings)
    st.(m_scanner) st.(m_analysisSuccessful) st.(m_parserResult) st.(m_errors).

(** ** Parsing and analysis *)

(** [ObjectParser(m_errorReporter, dialect).parse(m_scanner, false)]:
    the tree, if any, and the diagnostics list afterwards. *)
Variable ObjectParser_parse :
  Dialect -> Scanner -> list Error -> option Object * list Error.

(** [AsmAnalyzer(info, m_errorReporter, dialect, {}, dataNames).analyze(code)]:
    success, the filled-in [info] and the diagnostics list afterwards. *)
Variable AsmAnalyzer_analyze :
  Dialect -> list string -> Block -> list Error ->
  bool * AsmAnalysisInfo * list Error.

(** An analyzer that leaves a diagnostic whenever it fails, and keeps
    those that are there. *)
Definition reporting : Prop :=
  forall d names b errors,
    let '(ok, _, errors') := AsmAnalyzer_analyze d names b errors in
    ok = false \/ errors <> [] -> errors' <> [].

(** [Object::qualifiedDataNames()] *)
Variable qualifiedDataNames : Object -> list string.

(** [make_shared<AsmAnalysisInfo>()] *)
Variable newAsmAnalysisInfo : AsmAnalysisInfo.

(** The loop of [analyzeParsed(Object&)] over the sub-nodes, over the
    analysis [analyzeSub] of one sub-object: [success] is cleared when a
    sub-object fails and the loop goes on. *)
Definition analyzeSubObjects
  (analyzeSub : Object -> list Error -> result (bool * Object * list Error))
  : list ObjectNode -> bool -> list Error ->
    result (bool * list ObjectNode * list Error) :=
  fix each (nodes : list ObjectNode) (success : bool) (errors : list Error) :=
    match nodes with
    | [] => Ok (success, [], errors)
    | inl d :: rest =>
        do r <- each rest success errors;
        let '(success, rest, errors) := r in
        Ok (success, inl d :: rest, errors)
    | inr subObject :: rest =>
        do r <- analyzeSub subObject errors;
        let '(ok, subObject, errors) := r in
        do r <- each rest (if negb ok then false else success) errors;
        let '(success, rest, errors) := r in
        Ok (success, inr subObject :: rest, errors)
    end.

Section Analysis.

Variables (_language : Language.t) (_evmVersion : EVMVersion).

(** The analyzer run on the code of one object, whose metadata has
    just been replaced by a new, empty one. *)
Definition analyzeCode (name_ : string) (block : Block) (subs : list ObjectNode)
  (errors : list Error) : bool * AsmAnalysisInfo * list Error :=
  AsmAnalyzer_analyze (languageToDialect _language _evmVersion)
    (qualifiedDataNames (mkObject name_ (Some block) subs (Some newAsmAnalysisInfo)))
    block errors.

(** [analyzeParsed(Object&)]: the result and the object as it is left,
    over the diagnostics list. *)
Fixpoint analyzeParsedObject (_object : Object) (errors : list Error)
  : result (bool * Object * list Error) :=
  let 'mkObject name_ code_ subs _ := _object in
  do block <- require code_ "";
  let '(success, info, errors) := analyzeCode name_ block subs errors in
  do r <- analyzeSubObjects analyzeParsedObject subs success errors;
  let '(success, subs, errors) := r in
  Ok (success, mkObject name_ code_ subs (Some info), errors).

(** The analysis as the specification words it: every object of the
    list is analyzed, one after the other, each over the diagnostics
    the previous ones left, whatever their outcome.  The outcomes, in
    order, and the final diagnostics list. *)
Fixpoint analyses (nodes : list Object) (errors : list Error)
  : list (bool * AsmAnalysisInfo) * list Error :=
  match nodes with
  | [] => ([], errors)
  | mkObject name_ (Some block) subs _ :: rest =>
      let '(ok, info, errors) := analyzeCode name_ block subs errors in
      let '(outcomes, errors) := analyses rest errors in
      ((ok, info) :: outcomes, errors)
  | mkObject _ None _ _ :: rest => analyses rest errors
  end.

(** [analyzeParsed(Object&)] does to an object all of whose objects
    have code what [analyses] says: it returns the conjunction of the
    outcomes and leaves the diagnostics and the metadata of the run. *)
Definition analysesObject (sub : Object) : Prop :=
  Forall hasCode (objects sub) ->
  forall errors,
    let '(outcomes, errors') := analyses (objects sub) errors in
    exists sub',
      analyzeParsedObject sub errors = Ok (forallb fst outcomes, sub', errors')
      /\ analysed (objects sub) (objects sub') outcomes.

End Analysis.

(** [analyzeParsed()] *)
Definition analyzeParsed (st : AssemblyStack) : result (bool * AssemblyStack) :=
  do root <- require st.(m_parserResult) "";
  do r <- analyzeParsedObject st.(m_language) st.(m_evmVersion) root st.(m_errors);
  let '(success, root, errors) := r in
  Ok (success,
      setAnalysisSuccessful (setErrors (setParserResult st (Some root)) errors) success).

Definition parseAndAnalyze (_sourceName _source : string) (st : AssemblyStack)
  : result (bool * AssemblyStack) :=
  let st := setErrors st [] in
  let st := setAnalysisSuccessful st false in
  let scanner := mkScanner (Some (mkCharStream _source _sourceName)) in
  let st := setScanner st (Some scanner) in
  let '(tree, errors) :=
    ObjectParser_parse (languageToDialect st.(m_language) st.(m_evmVersion))
      scanner st.(m_errors) in
  let st := setErrors (setParserResult st tree) errors in
  match st.(m_errors) with
  | _ :: _ => Ok (false, st)
  | [] =>
      do root <- require st.(m_parserResult) "";
      check present (code root) otherwise "";
      analyzeParsed st
  end.

(** [parserResult()] *)
Definition parserResult (st : AssemblyStack) : result Object :=
  check st.(m_analysisSuccessful) otherwise "Analysis was not successful.";
  do root <- require st.(m_parserResult) "";
  check present (code root) otherwise "";
  Ok root.

(** ** Translation *)

(** [EVMToEwasmTranslator(dialect).run(object)] *)
Variable EVMToEwasmTranslator_run : Dialect -> Object -> Object.

Definition translate (_targetLanguage : Language.t) (st : AssemblyStack)
  : result AssemblyStack :=
  if Language.eqb st.(m_language) _targetLanguage then Ok st
  else
    check Language.eqb st.(m_language) Language.StrictAssembly
          && Language.eqb _targetLanguage Language.Ewasm
      otherwise "Invalid language combination";
    do root <- parserResult st;
    let st :=
      setParserResult st
        (Some (EVMToEwasmTranslator_run
                 (languageToDialect st.(m_language) st.(m_evmVersion)) root)) in
    Ok (setLanguage st _targetLanguage).

(** ** Optimisation *)

(** Modelled from the spec: [GasMeter] (the cost model) is declared
    outside the sources; it is built as [GasMeter(dialect, isCreation,
    runs)]. *)
Record GasMeter : Type := mkGasMeter {
  gm_dialect : Dialect;
  gm_isCreation : bool;
  gm_runs : nat
}.

(** [OptimiserSuite::run(dialect, meter, object, optimizeStackAllocation,
    optimisationSequence, expectedExecutionsPerDeployment,
    externallyUsedIdentifiers)]: the object as the suite leaves it. *)
Variable OptimiserSuite_run :
  Dialect -> option GasMeter -> Object -> bool -> string -> option nat ->
  list string -> Object.

(** The arguments of one call of [OptimiserSuite::run], kept to state
    what the suite is handed. *)
Record SuiteCall : Type := mkSuiteCall {
  sc_dialect : Dialect;
  sc_meter : option GasMeter;
  sc_object : Object;
  sc_optimizeStackAllocation : bool;
  sc_steps : string;
  sc_expectedExecutionsPerDeployment : option nat
}.

(** The loop of [optimize(Object&, bool)] over the sub-nodes. *)
Definition optimizeSubObjects
  (optimizeSub : Object -> bool -> result (Object * list SuiteCall))
  : list ObjectNode -> result (list ObjectNode * list SuiteCall) :=
  fix each (nodes : list ObjectNode) :=
    match nodes with
    | [] => Ok ([], [])
    | inl d :: rest =>
        do r <- each rest;
        let '(rest, calls) := r in
        Ok (inl d :: rest, calls)
    | inr subObject :: rest =>
        do r <- optimizeSub subObject false;
        let '(subObject, calls1) := r in
        do r <- each rest;
        let '(rest, calls2) := r in
        Ok (inr subObject :: rest, (calls1 ++ calls2)%list)
    end.

Section Optimisation.

Variables (_language : Language.t) (_evmVersion : EVMVersion)
          (_settings : OptimiserSettings).

(** The cost model, built for the dialects of the [EVMDialect] family. *)
Definition meterFor (dialect : Dialect) (_isCreation : bool) : option GasMeter :=
  match asEVMDialect dialect with
  | Some evmDialect =>
      Some (mkGasMeter evmDialect _isCreation
              _settings.(expectedExecutionsPerDeployment))
  | None => None
  end.

(** [_isCreation ? nullopt : make_optional(expectedExecutionsPerDeployment)] *)
Definition estimateFor (_isCreation : bool) : option nat :=
  if _isCreation then None
  else Some _settings.(expectedExecutionsPerDeployment).

(** [optimize(Object&, bool)]: the object as it is left and the calls
    of the suite, in the order they were made. *)
Fixpoint optimizeObject (_object : Object) (_isCreation : bool)
  : result (Object * list SuiteCall) :=
  let 'mkObject name_ code_ subs info_ := _object in
  check present code_ otherwise "";
  check present info_ otherwise "";
  do r <- optimizeSubObjects optimizeObject subs;
  let '(subs, calls) := r in
  let _object := mkObject name_ code_ subs info_ in
  let dialect := languageToDialect _language _evmVersion in
  let meter := meterFor dialect _isCreation in
  Ok (OptimiserSuite_run dialect meter _object
        _settings.(optimizeStackAllocation) _settings.(yulOptimiserSteps)
        (estimateFor _isCreation) [],
      (calls ++
       [mkSuiteCall dialect meter _object _settings.(optimizeStackAllocation)
          _settings.(yulOptimiserSteps) (estimateFor _isCreation)])%list).

(** A call of the suite as [optimize(Object&, bool)] makes it for an
    object optimised with [_isCreation]. *)
Definition suiteCallFor (_isCreation : bool) (call : SuiteCall) : Prop :=
  call.(sc_dialect) = languageToDialect _language _evmVersion
  /\ call.(sc_meter) = meterFor call.(sc_dialect) _isCreation
  /\ call.(sc_expectedExecutionsPerDeployment) = estimateFor _isCreation
  /\ call.(sc_optimizeStackAllocation) = _settings.(optimizeStackAllocation)
  /\ call.(sc_steps) = _settings.(yulOptimiserSteps).

End Optimisation.

(** [optimize()] *)
Definition optimize (st : AssemblyStack) : result (AssemblyStack * list SuiteCall) :=
  if negb st.(m_optimiserSettings).(runYulOptimiser) then Ok (st, [])
  else
    check st.(m_analysisSuccessful) otherwise "Analysis was not successful.";
    let st := setAnalysisSuccessful st false in
    do root <- require st.(m_parserResult) "";
    do r <- optimizeObject st.(m_language) st.(m_evmVersion)
              st.(m_optimiserSettings) root true;
    let '(root, calls) := r in
    let st := setParserResult st (Some root) in
    do r <- analyzeParsed st;
    let '(ok, st) := r in
    check ok otherwise "Invalid source code after optimization.";
    Ok (st, calls).

(** ** Assembling *)

(** Modelled from the spec: [evmasm::Assembly] is declared outside the
    sources; the stack uses its name, its items and its sub-assemblies
    (the nested code regions). *)
#[warnings="-register-all"] Inductive Assembly : Type :=
  mkAssembly (asm_name : string) (asm_items : list AssemblyItem)
             (asm_subs : list Assembly).

Definition asm_name (a : Assembly) : string := let 'mkAssembly n _ _ := a in n.
Definition items (a : Assembly) : list AssemblyItem := let 'mkAssembly _ i _ := a in i.
Definition subs (a : Assembly) : list Assembly := let 'mkAssembly _ _ s := a in s.
Definition numSubs (a : Assembly) : nat := List.length (subs a).
(** [assembly.sub(i)] *)
Definition sub (a : Assembly) (i : nat) : result Assembly :=
  require (nth_error (subs a) i) "".

(** [EVMObjectCompiler::compile(object, assembly, dialect, optimize)],
    run on an empty assembly: the assembly it builds. *)
Variable EVMObjectCompiler_compile : Object -> Dialect -> bool -> Assembly.
(** [Assembly::assemble()], [Assembly::assemblyString()] and
    [AssemblyItem::computeSourceMapping(items, sourceIndices)] *)
Variable assemble : Assembly -> LinkerObject.
Variable assemblyString : Assembly -> string.
Variable computeSourceMapping : list AssemblyItem -> list (string * nat) -> string.

Definition compileEVM (st : AssemblyStack) (_optimize : bool) : result Assembly :=
  do dialect <-
    match st.(m_language) with
    | Language.Assembly | Language.StrictAssembly =>
        Ok (strictAssemblyForEVMObjects st.(m_evmVersion))
    | Language.Yul => Ok (EVMDialectTyped_instance st.(m_evmVersion))
    | _ => Fatal "Invalid language."
    end;
  do root <- require st.(m_parserResult) "";
  Ok (EVMObjectCompiler_compile root dialect _optimize).

(** [scanner().charStream() ? scanner().charStream()->name() : ""] *)
Definition sourceName (st : AssemblyStack) : result string :=
  do scanner <- require st.(m_scanner) "";
  Ok match scanner.(charStream) with
     | Some stream => stream.(cs_name)
     | None => ""
     end.

(** The loop that looks for the sub-assembly called [_deployName],
    from index [i] on. *)
Fixpoint findSub (_deployName : string) (rest : list Assembly) (i : nat) : option nat :=
  match rest with
  | [] => None
  | a :: rest =>
      if String.eqb (asm_name a) _deployName then Some i
      else findSub _deployName rest (S i)
  end.

(** The linked bytes, the text and the source mappings of an assembly,
    the last over the one source [source] at index 0. *)
Definition objectOf (source : string) (a : Assembly) : MachineAssemblyObject :=
  mkMachineAssemblyObject (Some (assemble a)) (assemblyString a)
    (Some (computeSourceMapping (items a) [(source, 0)])).

Definition machineObject (st : AssemblyStack) (a : Assembly)
  : result MachineAssemblyObject :=
  do source <- sourceName st;
  Ok (objectOf source a).

Definition assembleWithDeployed (_deployName : option string) (st : AssemblyStack)
  : result (MachineAssemblyObject * MachineAssemblyObject) :=
  check st.(m_analysisSuccessful) otherwise "";
  do root <- require st.(m_parserResult) "";
  check present (code root) otherwise "";
  check present (analysisInfo root) otherwise "";
  do assembly <- compileEVM st st.(m_optimiserSettings).(optimizeStackAllocation);
  check match (assemble assembly).(immutableReferences) with [] => true | _ => false end
    otherwise "Leftover immutables.";
  do creationObject <- machineObject st assembly;
  do subIndex <-
    match _deployName with
    | Some deployName =>
        let subIndex := findSub deployName (subs assembly) 0 in
        check present subIndex otherwise "Failed to find object to be deployed.";
        Ok subIndex
    | None => Ok (if Nat.eqb (numSubs assembly) 1 then Some 0 else None)
    end;
  do deployedObject <-
    match subIndex with
    | Some i =>
        do runtimeAssembly <- sub assembly i;
        machineObject st runtimeAssembly
    | None => Ok emptyObject
    end;
  Ok (creationObject, deployedObject).

(** ** The other member functions *)

(** [scanner()] *)
Definition scanner (st : AssemblyStack) : result Scanner :=
  require st.(m_scanner) "".

(** [WasmObjectCompiler::compile(object, dialect)]: the text and the
    bytes. *)
Variable WasmObjectCompiler_compile : Object -> Dialect -> string * string.

(** [EVMVersion{}] *)
Variable defaultEVMVersion : EVMVersion.

(** [assemble(Machine)].  Modelled from the spec: the default argument of
    [assembleWithDeployed], declared in the header, is taken to be no
    deploy name. *)
Definition AssemblyStack_assemble (_machine : Machine.t) (st : AssemblyStack)
  : result MachineAssemblyObject :=
  check st.(m_analysisSuccessful) otherwise "";
  do root <- require st.(m_parserResult) "";
  check present (code root) otherwise "";
  check present (analysisInfo root) otherwise "";
  match _machine with
  | Machine.EVM =>
      do r <- assembleWithDeployed None st;
      Ok (fst r)
  | Machine.Ewasm =>
      check Language.eqb st.(m_language) Language.Ewasm otherwise "";
      let dialect := languageToDialect st.(m_language) defaultEVMVersion in
      let result_ := WasmObjectCompiler_compile root dialect in
      Ok (mkMachineAssemblyObject
            (Some (mkLinkerObject (snd result_) [] [])) (fst result_) None)
  end.

(** [Object::toString(dialect)] *)
Variable Object_toString : Object -> Dialect -> string.

(** [print()] *)
Definition print (st : AssemblyStack) : result string :=
  do root <- require st.(m_parserResult) "";
  check present (code root) otherwise "";
  Ok (Object_toString root (languageToDialect st.(m_language) st.(m_evmVersion))
      ++ Str.nl).

(** An object without the metadata of its objects. *)
Fixpoint withoutInfo (o : Object) : Object :=
  let 'mkObject n c nodes _ := o in
  mkObject n c
    (map (fun node : ObjectNode =>
            match node with
            | inl d => inl d
            | inr sub => inr (withoutInfo sub)
            end) nodes)
    None.

(** The object and all objects below it, children first. *)
Fixpoint postorder (o : Object) : list Object :=
  (flat_map (fun n : ObjectNode =>
               match n with
               | inl _ => []
               | inr sub => postorder sub
               end) (subObjects o) ++ [o])%list.

(** The objects below a list of sub-nodes, children first. *)
Definition belowPostorder (nodes : list ObjectNode) : list Object :=
  flat_map (fun n : ObjectNode =>
              match n with inl _ => [] | inr sub => postorder sub end) nodes.

Definition optimisable (o : Object) : Prop := hasCode o /\ hasAnalysisInfo o.

End Stack.

(* ===================================================================== *)
(** * Concrete collectors and jobs *)
(* ===================================================================== *)

(** Small inputs on which the properties below are tried. *)
Module Examples.

Definition fDefinition : string := "function f() {}".
Definition aDefinition : string := "function a_helper() {}".
Definition zDefinition : string := "function z_helper() {}".

(** After [f] has been requested. *)
Definition afterF : Collector.state :=
  Collector.mkState [("f", fDefinition)] ["f"].

(** [z_helper] requested before [a_helper], and the other way round. *)
Definition afterZ : Collector.state :=
  Collector.mkState [("z_helper", zDefinition)] ["z_helper"].
Definition afterA : Collector.state :=
  Collector.mkState [("a_helper", aDefinition)] ["a_helper"].
Definition afterZA : Collector.state :=
  Collector.mkState [("a_helper", aDefinition); ("z_helper", zDefinition)]
    ["a_helper"; "z_helper"].
Definition afterAZ : Collector.state :=
  Collector.mkState [("a_helper", aDefinition); ("z_helper", zDefinition)]
    ["z_helper"; "a_helper"].

(** The empty name, stored by the first form of [createFunction]. *)
Definition emptyNameStored : Collector.state :=
  Collector.mkState [("", "function (")] [""].

(** A definition whose header follows four tabs on a line of its own,
    as the template of [createFunction] indents it (by three there). *)
Definition fooRest : string := "function foo() -> r { r := 1 }" ++ Str.nl.
Definition fooDefinition : string := Collector.headerLine Str.nl 4 fooRest.
Definition fooStored : Collector.state :=
  Collector.mkState [("foo", fooDefinition)] ["foo"].
Definition srcComment : string := "/// @src 0:10:20".

(** A definition whose header is on the first line, after two tabs. *)
Definition firstLineDefinition : string :=
  Collector.headerLine "" 2 "function f() {}".
Definition firstLineStored : Collector.state :=
  Collector.mkState [("f", firstLineDefinition)] ["f"].

(** A definition that carries a source location already. *)
Definition annotatedDefinition : string :=
  "/// @src 1:2:3" ++ Str.nl ++ "function g() {}".

(** ** Jobs *)

(** Code blocks are numbers, 0 being the one block the analyzer rejects;
    the metadata of a block is its number; diagnostics are texts; an
    assembly item is the number of the block it comes from. *)
Definition analyze (d : Dialect unit) (names : list string) (block : nat)
  (errors : list string) : bool * nat * list string :=
  if Nat.eqb block 0 then (false, 0, (errors ++ ["invalid block"])%list)
  else (true, block, errors).

Definition names (o : Object nat nat) : list string := [name o].

Definition runtime (block : nat) (info : option nat) : Object nat nat :=
  mkObject "runtime" (Some block) [] info.

Definition tree (block : nat) (info infoRuntime : option nat) : Object nat nat :=
  mkObject "creation" (Some 1)
    [inl (mkData "metadata" "00"); inr (runtime block infoRuntime)] info.

(** The parser: no object in an empty source, an object with a runtime
    object otherwise, whose block is invalid for the source [invalid]. *)
Definition parse (d : Dialect unit) (scanner : Scanner) (errors : list string)
  : option (Object nat nat) * list string :=
  match scanner.(charStream) with
  | Some stream =>
      if String.eqb stream.(cs_source) "" then
        (None, (errors ++ ["expected an object"])%list)
      else if String.eqb stream.(cs_source) "invalid" then
        (Some (tree 0 None None), errors)
      else (Some (tree 2 None None), errors)
  | None => (None, (errors ++ ["no source"])%list)
  end.

Definition settings : OptimiserSettings :=
  mkOptimiserSettings true true "dhfoDgvulfnTUtnIf" 200.

Definition job (l : Language.t) : AssemblyStack nat nat string unit :=
  mkAssemblyStack l tt settings None false None [].

Definition scanned (source : string) : option Scanner :=
  Some (mkScanner (Some (mkCharStream source "input.yul"))).

(** The job after [parseAndAnalyze("input.yul", "valid")] and after
    [parseAndAnalyze("input.yul", "invalid")]. *)
Definition analyzedTree : Object nat nat := tree 2 (Some 1) (Some 2).
Definition analyzedJob (l : Language.t) : AssemblyStack nat nat string unit :=
  mkAssemblyStack l tt settings (scanned "valid") true (Some analyzedTree) [].
Definition failedJob (l : Language.t) : AssemblyStack nat nat string unit :=
  mkAssemblyStack l tt settings (scanned "invalid") false
    (Some (tree 0 (Some 1) (Some 0))) ["invalid block"].

Definition translateTree (d : Dialect unit) (o : Object nat nat) : Object nat nat :=
  mkObject (name o) (code o) (subObjects o) None.

Definition suite (d : Dialect unit) (meter : option (GasMeter unit))
  (o : Object nat nat) (optimizeStack : bool) (steps : string)
  (estimate : option nat) (external : list string) : Object nat nat := o.

(** One assembly per object, with the block as its only item. *)
Fixpoint compileObject (o : Object nat nat) : Assembly nat :=
  let 'mkObject n c nodes _ := o in
  mkAssembly n
    match c with Some block => [block] | None => [] end
    (flat_map (fun node : ObjectNode nat nat =>
                 match node with
                 | inl _ => []
                 | inr sub => [compileObject sub]
                 end) nodes).

Definition compile (o : Object nat nat) (d : Dialect unit) (optimize : bool)
  : Assembly nat := compileObject o.

(** The linker leaves an immutable reference in block 7. *)
Definition link (a : Assembly nat) : LinkerObject :=
  mkLinkerObject (asm_name a) []
    (if existsb (Nat.eqb 7) (items a) then [(0%N, ("x", [1]))] else []).

Definition text (a : Assembly nat) : string := "assembly " ++ asm_name a.

Definition sourceMapping (l : list nat) (sources : list (string * nat)) : string :=
  "0:0:0".

(** A job whose only block is block 7. *)
Definition leftoverJob : AssemblyStack nat nat string unit :=
  mkAssemblyStack Language.StrictAssembly tt settings (scanned "valid") true
    (Some (mkObject "creation" (Some 7) [] (Some 7))) [].

(** While the creator of [f] runs. *)
Definition generatingF : Collector.state :=
  Collector.mkState [("f", Collector.STUB)] ["f"].

(** A header after four blanks on its line. *)
Definition blanksDefinition : string :=
  "{" ++ Str.nl ++ "    function f() {}".

(** The Wasm compiler and the printer. *)
Definition compileWasm (o : Object nat nat) (d : Dialect unit) : string * string :=
  ("(module " ++ name o ++ ")", "wasm " ++ name o).

Definition toString (o : Object nat nat) (d : Dialect unit) : string :=
  "object " ++ name o.

(** An assembly with two sub-assemblies of the same name. *)
Definition twins : Object nat nat :=
  mkObject "creation" (Some 1)
    [inr (mkObject "runtime" (Some 2) [] (Some 2));
     inr (mkObject "runtime" (Some 3) [] (Some 3))] (Some 1).
Definition twinsJob : AssemblyStack nat nat string unit :=
  mkAssemblyStack Language.StrictAssembly tt settings (scanned "valid") true
    (Some twins) [].

End Examples.

(* ===================================================================== *)
(** * Properties *)
(* ===================================================================== *)

Lemma Language_eqb_spec (a b : Language.t) : reflect (a = b) (Language.eqb a b).
Proof. destruct a, b; simpl; constructor; congruence. Qed.

Lemma bind_Ok {A B : Type} (r : result A) (k : A -> result B) (b : B) :
  bind r k = Ok b -> exists a, r = Ok a /\ k a = Ok b.
Proof. destruct r as [a|msg]; simpl; [eauto | discriminate]. Qed.

Lemma assert_Ok (c : bool) (msg : string) (u : unit) :
  assert c msg = Ok u -> c = true.
Proof. destruct c; simpl; [reflexivity | discriminate]. Qed.

(** The same, naming what it finds. *)
Ltac bind_inv_as H a Hr :=
  apply bind_Ok in H; destruct H as [a [Hr H]];
  try (apply assert_Ok in Hr).

Lemma nil_or_not {A : Type} (l : list A) : l = [] \/ l <> [].
Proof. destruct l; [left; reflexivity | right; discriminate]. Qed.

(** Takes a hypothesis [bind r k = Ok b] apart. *)
Ltac bind_inv H :=
  let a := fresh "a" in
  let Hr := fresh "Hr" in
  apply bind_Ok in H; destruct H as [a [Hr H]];
  try (apply assert_Ok in Hr).

(** ** The order of [std::string] *)

Module StrFacts.

Lemma ascii_compare_refl (a : ascii) : Ascii.compare a a = Eq.
Proof. apply N.compare_refl. Qed.

Lemma ascii_compare_trans (a b c : ascii) :
  Ascii.compare a b = Lt -> Ascii.compare b c = Lt -> Ascii.compare a c = Lt.
Proof.
  unfold Ascii.compare. rewrite !N.compare_lt_iff. apply N.lt_trans.
Qed.

Lemma compare_refl (s : string) : String.compare s s = Eq.
Proof.
  induction s as [|a s IH]; simpl; [reflexivity|].
  now rewrite ascii_compare_refl.
Qed.

Lemma compare_Eq (a b : string) : String.compare a b = Eq <-> a = b.
Proof.
  split; [apply String.compare_eq_iff | intros ->; apply compare_refl].
Qed.

Lemma compare_Gt (a b : string) : String.compare a b = Gt <-> String.compare b a = Lt.
Proof.
  rewrite (String.compare_antisym b a).
  destruct (String.compare a b); simpl; split; congruence.
Qed.

Lemma compare_trans (a b c : string) :
  String.compare a b = Lt -> String.compare b c = Lt -> String.compare a c = Lt.
Proof.
  revert b c. induction a as [|x a IH]; intros [|y b] [|z c]; simpl;
    try congruence.
  destruct (Ascii.compare x y) eqn:Exy; try discriminate;
    destruct (Ascii.compare y z) eqn:Eyz; try discriminate; intros Hab Hbc.
  - apply Ascii.compare_eq_iff in Exy, Eyz. subst.
    rewrite ascii_compare_refl. eauto.
  - apply Ascii.compare_eq_iff in Exy. subst. now rewrite Eyz.
  - apply Ascii.compare_eq_iff in Eyz. subst. now rewrite Exy.
  - now rewrite (ascii_compare_trans _ _ _ Exy Eyz).
Qed.

Lemma lt_compare (a b : string) : Str.lt a b <-> String.compare a b = Lt.
Proof.
  unfold Str.lt, String.ltb. destruct (String.compare a b); split; congruence.
Qed.

Lemma lt_irrefl (a : string) : ~ Str.lt a a.
Proof. rewrite lt_compare, compare_refl. discriminate. Qed.

Lemma lt_trans (a b c : string) : Str.lt a b -> Str.lt b c -> Str.lt a c.
Proof. rewrite !lt_compare. apply compare_trans. Qed.

Lemma lt_neq (a b : string) : Str.lt a b -> a <> b.
Proof. intros H ->. exact (lt_irrefl H). Qed.

Lemma append_assoc (a b c : string) : (a ++ b) ++ c = a ++ b ++ c.
Proof. induction a as [|x a IH]; simpl; [reflexivity | now rewrite IH]. Qed.

Lemma append_nil_r (a : string) : a ++ "" = a.
Proof. induction a as [|x a IH]; simpl; [reflexivity | now rewrite IH]. Qed.

Lemma length_append (a b : string) :
  String.length (a ++ b) = String.length a + String.length b.
Proof. induction a as [|x a IH]; simpl; [reflexivity | now rewrite IH]. Qed.

Lemma append_empty (a b : string) : a ++ b = "" -> a = "" /\ b = "".
Proof. destruct a; simpl; [auto | discriminate]. Qed.

Lemma substring_all (s : string) : substring 0 (String.length s) s = s.
Proof. induction s as [|x s IH]; simpl; [reflexivity | now rewrite IH]. Qed.

Lemma take_append (a b : string) : Str.take (String.length a) (a ++ b) = a.
Proof.
  unfold Str.take. induction a as [|x a IH]; simpl.
  - destruct b; reflexivity.
  - now rewrite IH.
Qed.

Lemma drop_append (a b : string) : Str.drop (String.length a) (a ++ b) = b.
Proof.
  unfold Str.drop. rewrite length_append.
  replace (String.length a + String.length b - String.length a)
    with (String.length b) by lia.
  induction a as [|x a IH]; simpl; [apply substring_all | exact IH].
Qed.

Lemma length_fill (n : nat) (c : ascii) : String.length (Str.fill n c) = n.
Proof. induction n as [|n IH]; simpl; [reflexivity | now rewrite IH]. Qed.

Lemma find_last_of_append_no (c : ascii) (a b : string) :
  Str.find_last_of c b = None ->
  Str.find_last_of c (a ++ b) = Str.find_last_of c a.
Proof.
  intros Hb. induction a as [|x a IH]; simpl; [exact Hb | now rewrite IH].
Qed.

Lemma find_last_of_end (c : ascii) (a : string) :
  Str.find_last_of c (a ++ String c "") = Some (String.length a).
Proof.
  induction a as [|x a IH]; simpl.
  - now rewrite Ascii.eqb_refl.
  - now rewrite IH.
Qed.

Lemma find_last_of_fill (c d : ascii) (n : nat) :
  c <> d -> Str.find_last_of c (Str.fill n d) = None.
Proof.
  intros Hcd. induction n as [|n IH]; simpl; [reflexivity|].
  rewrite IH. destruct (Ascii.eqb_spec d c); [congruence | reflexivity].
Qed.

End StrFacts.

(** ** The map *)

Module StringMapFacts.
Import StringMap.

Lemma ordered_nil : ordered empty.
Proof. constructor. Qed.

Lemma ordered_inv (k v : string) (m : t) :
  ordered ((k, v) :: m) -> ordered m /\ Forall (Str.lt k) (keys m).
Proof. intros H. inversion H; subst. auto. Qed.

Lemma keys_assign_Forall (P : string -> Prop) (k v : string) (m : t) :
  P k -> Forall P (keys m) -> Forall P (keys (assign k v m)).
Proof.
  intros Hk. induction m as [|[k' v'] m IH]; simpl; intros Hm.
  - constructor; [exact Hk | constructor].
  - inversion Hm; subst.
    destruct (String.compare k k'); simpl; constructor; auto.
Qed.

Lemma assign_ordered (k v : string) (m : t) :
  ordered m -> ordered (assign k v m).
Proof.
  unfold ordered. induction m as [|[k' v'] m IH]; simpl; intros Hm.
  - repeat constructor.
  - inversion Hm as [|? ? Hs Hall]; subst.
    destruct (String.compare k k') eqn:E; simpl.
    + apply StrFacts.compare_Eq in E. subst. constructor; assumption.
    + apply StrFacts.lt_compare in E. constructor; [exact Hm|].
      constructor; [exact E|].
      eapply Forall_impl; [|exact Hall].
      intros x Hx. eapply StrFacts.lt_trans; eassumption.
    + apply StrFacts.compare_Gt, StrFacts.lt_compare in E.
      constructor; [apply IH, Hs|].
      apply keys_assign_Forall; assumption.
Qed.

Lemma assign_Forall (P : string * string -> Prop) (k v : string) (m : t) :
  P (k, v) -> Forall P m -> Forall P (assign k v m).
Proof.
  intros Hk. induction m as [|[k' v'] m IH]; simpl; intros Hm.
  - constructor; [exact Hk | constructor].
  - inversion Hm; subst.
    destruct (String.compare k k'); constructor; auto.
Qed.

Lemma count_absent (k : string) (m : t) :
  Forall (fun k' => k' <> k) (keys m) -> count k m = 0.
Proof.
  unfold count. induction m as [|[k' v'] m IH]; simpl; intros H;
    [reflexivity|].
  inversion H; subst.
  destruct (String.eqb_spec k' k); [contradiction | auto].
Qed.

Lemma count_assign_same (k v : string) (m : t) :
  ordered m -> count k (assign k v m) = 1.
Proof.
  induction m as [|[k' v'] m IH]; intros Hm.
  - unfold count. simpl. now rewrite String.eqb_refl.
  - apply ordered_inv in Hm. destruct Hm as [Hm Hall]. simpl.
    destruct (String.compare k k') eqn:E.
    + apply StrFacts.compare_Eq in E. subst k'.
      unfold count in *. simpl. rewrite String.eqb_refl. simpl. f_equal.
      apply count_absent. eapply Forall_impl; [|exact Hall].
      intros x Hx Heq. subst. exact (StrFacts.lt_irrefl Hx).
    + apply StrFacts.lt_compare in E.
      unfold count in *. simpl. rewrite String.eqb_refl. simpl. f_equal.
      destruct (String.eqb_spec k' k) as [->|_];
        [exfalso; exact (StrFacts.lt_irrefl E)|].
      apply count_absent. eapply Forall_impl; [|exact Hall].
      intros x Hx Heq. subst.
      exact (StrFacts.lt_irrefl (StrFacts.lt_trans E Hx)).
    + apply StrFacts.compare_Gt, StrFacts.lt_compare in E.
      specialize (IH Hm). unfold count in *. simpl.
      destruct (String.eqb_spec k' k) as [->|_];
        [exfalso; exact (StrFacts.lt_irrefl E) | exact IH].
Qed.

Lemma count_assign_other (k k0 v : string) (m : t) :
  k0 <> k -> count k0 (assign k v m) = count k0 m.
Proof.
  intros Hne. unfold count.
  induction m as [|[k' v'] m IH]; simpl.
  - destruct (String.eqb_spec k k0); [congruence | reflexivity].
  - destruct (String.compare k k') eqn:E; simpl.
    + apply StrFacts.compare_Eq in E. subst k'.
      destruct (String.eqb_spec k k0); [congruence | reflexivity].
    + destruct (String.eqb_spec k k0); [congruence | reflexivity].
    + destruct (String.eqb k' k0); simpl; now rewrite IH.
Qed.

Lemma count_assign_self (k v : string) (m : t) : count k (assign k v m) <> 0.
Proof.
  unfold count. induction m as [|[k' v'] m IH]; simpl.
  - rewrite String.eqb_refl. discriminate.
  - destruct (String.compare k k'); simpl;
      try (rewrite String.eqb_refl; discriminate).
    destruct (String.eqb k' k); simpl; [discriminate | exact IH].
Qed.

Lemma count_assign_pos (k k0 v : string) (m : t) :
  count k0 m <> 0 -> count k0 (assign k v m) <> 0.
Proof.
  intros H. destruct (string_dec k0 k) as [->|Hne].
  - apply count_assign_self.
  - now rewrite count_assign_other.
Qed.

Lemma lookup_count (k : string) (m : t) :
  count k m <> 0 <-> lookup k m <> None.
Proof.
  unfold count, lookup. induction m as [|[k' v'] m IH]; simpl.
  - tauto.
  - destruct (String.eqb k' k); simpl; [split; intros; discriminate | exact IH].
Qed.

Lemma lookup_head (k v : string) (m : t) : lookup k ((k, v) :: m) = Some v.
Proof. unfold lookup. simpl. now rewrite String.eqb_refl. Qed.

Lemma lookup_absent (k : string) (m : t) :
  Forall (fun k' => k' <> k) (keys m) -> lookup k m = None.
Proof.
  unfold lookup. induction m as [|[k' v'] m IH]; simpl; intros H;
    [reflexivity|].
  inversion H; subst.
  destruct (String.eqb_spec k' k); [contradiction | auto].
Qed.

Lemma lt_all_absent (k : string) (m : t) :
  Forall (Str.lt k) (keys m) -> Forall (fun k' => k' <> k) (keys m).
Proof.
  apply Forall_impl. intros x Hx ->. exact (StrFacts.lt_irrefl Hx).
Qed.

Lemma count_ordered (k : string) (m : t) : ordered m -> count k m <= 1.
Proof.
  induction m as [|[k' v'] m IH]; intros Hm; [unfold count; simpl; lia|].
  apply ordered_inv in Hm. destruct Hm as [Hm Hall].
  pose proof (IH Hm) as IH'. unfold count in *. simpl.
  destruct (String.eqb_spec k' k) as [->|_]; [|exact IH'].
  simpl. pose proof (@count_absent _ _ (@lt_all_absent _ _ Hall)) as C.
  unfold count in C. rewrite C. lia.
Qed.

(** Two maps with the same contents are the same sequence of entries:
    the iteration order is a function of what is stored. *)
Lemma ordered_ext (m1 m2 : t) :
  ordered m1 -> ordered m2 ->
  (forall k, lookup k m1 = lookup k m2) -> m1 = m2.
Proof.
  revert m2. induction m1 as [|[k1 v1] m1 IH]; intros [|[k2 v2] m2] H1 H2 Hext.
  - reflexivity.
  - specialize (Hext k2). rewrite lookup_head in Hext. discriminate.
  - specialize (Hext k1). rewrite lookup_head in Hext. discriminate.
  - apply ordered_inv in H1. destruct H1 as [H1 A1].
    apply ordered_inv in H2. destruct H2 as [H2 A2].
    assert (Hk : k1 = k2).
    { destruct (String.compare k1 k2) eqn:E.
      - now apply StrFacts.compare_Eq.
      - exfalso. apply StrFacts.lt_compare in E.
        pose proof (Hext k1) as Hx. rewrite lookup_head in Hx.
        unfold lookup in Hx. simpl in Hx.
        destruct (String.eqb_spec k2 k1) as [->|_];
          [exact (StrFacts.lt_irrefl E)|].
        fold (lookup k1 m2) in Hx.
        rewrite lookup_absent in Hx; [discriminate|].
        eapply Forall_impl; [|exact A2]. intros x Hx' ->.
        exact (StrFacts.lt_irrefl (StrFacts.lt_trans E Hx')).
      - exfalso. apply StrFacts.compare_Gt, StrFacts.lt_compare in E.
        pose proof (Hext k2) as Hx. rewrite lookup_head in Hx.
        unfold lookup in Hx. simpl in Hx.
        destruct (String.eqb_spec k1 k2) as [->|_];
          [exact (StrFacts.lt_irrefl E)|].
        fold (lookup k2 m1) in Hx.
        rewrite lookup_absent in Hx; [discriminate|].
        eapply Forall_impl; [|exact A1]. intros x Hx' ->.
        exact (StrFacts.lt_irrefl (StrFacts.lt_trans E Hx')). }
    subst k2.
    pose proof (Hext k1) as Hv. rewrite !lookup_head in Hv.
    injection Hv as ->. f_equal.
    apply IH; try assumption.
    intros k. specialize (Hext k). unfold lookup in Hext. simpl in Hext.
    destruct (String.eqb_spec k1 k) as [E|_]; [|exact Hext].
    rewrite <- E. rewrite !lookup_absent; auto using lt_all_absent.
Qed.

End StringMapFacts.

(** ** The collector *)

Module CollectorFacts.
Import Collector.

Lemma extends_refl (st : state) : extends st st.
Proof. unfold extends. auto. Qed.

Lemma extends_trans (a b c : state) : extends a b -> extends b c -> extends a c.
Proof.
  intros (O1 & F1 & N1) (O2 & F2 & N2). repeat split; auto.
  - apply N2, N1, H.
  - destruct (N1 _ H) as [Hb E1]. destruct (N2 _ Hb) as [_ E2]. congruence.
Qed.

Lemma extends_setFunction (name code : string) (st : state) :
  code <> "" -> extends st (setFunction name code st).
Proof.
  intros Hcode. repeat split; simpl.
  - apply StringMapFacts.assign_ordered.
  - apply StringMapFacts.assign_Forall. exact Hcode.
  - now apply StringMapFacts.count_assign_pos.
Qed.

Lemma extends_enter (name : string) (st : state) :
  StringMap.count name st.(m_requestedFunctions) = 0 ->
  extends st (noteCall name (setFunction name STUB st)).
Proof.
  intros Habs. repeat split; simpl.
  - apply StringMapFacts.assign_ordered.
  - apply StringMapFacts.assign_Forall. discriminate.
  - now apply StringMapFacts.count_assign_pos.
  - unfold calls. simpl.
    destruct (string_dec name name0) as [->|_]; [contradiction | reflexivity].
Qed.

Lemma empty_false (s : string) : negb (Str.empty s) = true -> s <> "".
Proof. destruct s; simpl; discriminate. Qed.

Lemma calls_enter (name : string) (st : state) :
  calls name (noteCall name (setFunction name STUB st)) = S (calls name st).
Proof.
  unfold calls. simpl. destruct (string_dec name name); congruence.
Qed.

Lemma count_enter (name : string) (st : state) :
  StringMap.count name
    (noteCall name (setFunction name STUB st)).(m_requestedFunctions) <> 0.
Proof. apply StringMapFacts.count_assign_self. Qed.

Lemma count_setFunction (name code : string) (st : state) :
  StringMap.count name (setFunction name code st).(m_requestedFunctions) <> 0.
Proof. apply StringMapFacts.count_assign_self. Qed.

Lemma render_filled (n a r b : string) : render n a r b <> "".
Proof. discriminate. Qed.

Lemma calls_setFunction (n name code : string) (st : state) :
  calls n (setFunction name code st) = calls n st.
Proof. reflexivity. Qed.

(** Either overload, once the creator has returned [code]: what the
    call as a whole has done to the collector. *)
Lemma request_extends (name code : string) (st st2 : state) :
  StringMap.count name st.(m_requestedFunctions) = 0 ->
  extends (noteCall name (setFunction name STUB st)) st2 ->
  code <> "" ->
  extends st (setFunction name code st2)
  /\ calls name (setFunction name code st2) = S (calls name st).
Proof.
  intros Habs E2 Hcode. split.
  - eapply extends_trans; [apply extends_enter, Habs|].
    eapply extends_trans; [exact E2|]. now apply extends_setFunction.
  - rewrite calls_setFunction.
    destruct E2 as (_ & _ & N2).
    destruct (N2 name (count_enter name st)) as [_ ->].
    apply calls_enter.
Qed.

Section Calls.

Variable name : string.

Lemma createFunctionBy_requested (call : state -> result (string * state)) :
  extending call ->
  forall st r st',
    createFunctionBy call name st = Ok (r, st') -> requested name st r st'.
Proof.
  intros Hcall st r st'. unfold createFunctionBy, requested.
  destruct (Nat.eqb_spec (StringMap.count name st.(m_requestedFunctions)) 0)
    as [Habs|Hpres].
  - intros H. bind_inv H. destruct a as [fun_ st2].
    bind_inv H. bind_inv H. injection H as <- <-.
    apply Hcall in Hr. apply empty_false in Hr0.
    destruct (request_extends Habs Hr Hr0) as [E C].
    split; [reflexivity|]. split; [exact E|].
    split; [apply count_setFunction | lia].
  - intros H. injection H as <- <-.
    split; [reflexivity|]. split; [apply extends_refl|].
    split; [exact Hpres | lia].
Qed.

Lemma createFunctionWithBy_requested (call : state -> result (parts * state)) :
  extending call ->
  forall st r st',
    createFunctionWithBy call name st = Ok (r, st') ->
    requested name st r st' /\ name <> "".
Proof.
  intros Hcall st r st'. unfold createFunctionWithBy, requested.
  intros H. bind_inv H. apply empty_false in Hr. split; [|exact Hr].
  destruct (Nat.eqb_spec (StringMap.count name st.(m_requestedFunctions)) 0)
    as [Habs|Hpres].
  - bind_inv H. destruct a0 as [[[arguments returnParameters] body] st2].
    bind_inv H. injection H as <- <-.
    apply Hcall in Hr0.
    destruct (request_extends Habs Hr0
                (@render_filled name (joinHumanReadable arguments)
                   (joinHumanReadable returnParameters) body)) as [E C].
    split; [reflexivity|]. split; [exact E|].
    split; [apply count_setFunction | lia].
  - injection H as <- <-.
    split; [reflexivity|]. split; [apply extends_refl|].
    split; [exact Hpres | lia].
Qed.

End Calls.

(** Running a creator extends the collector. *)
Lemma run_extends (R : Type) (c : creator R) : extending (run c).
Proof.
  induction c as [R r|R msg|R name g IHg next IHnext|R name g IHg next IHnext];
    intros st r' st'; simpl; intros H.
  - injection H as <- <-. apply extends_refl.
  - discriminate.
  - bind_inv H. destruct a as [n st1].
    eapply createFunctionBy_requested in Hr; [|exact IHg].
    destruct Hr as (_ & E & _). eapply extends_trans; [exact E | eauto].
  - bind_inv H. destruct a as [n st1].
    eapply createFunctionWithBy_requested in Hr; [|exact IHg].
    destruct Hr as ((_ & E & _) & _). eapply extends_trans; [exact E | eauto].
Qed.

Lemma createFunction_requested (name : string) (g : creator string)
  (st : state) (r : string) (st' : state) :
  createFunction name g st = Ok (r, st') -> requested name st r st'.
Proof. apply createFunctionBy_requested, run_extends. Qed.

Lemma createFunctionWith_requested (name : string) (g : creator parts)
  (st : state) (r : string) (st' : state) :
  createFunctionWith name g st = Ok (r, st') ->
  requested name st r st' /\ name <> "".
Proof. apply createFunctionWithBy_requested, run_extends. Qed.

(** A name that is stored is handed back at once. *)
Lemma createFunction_present (name : string) (g : creator string) (st : state) :
  StringMap.count name st.(m_requestedFunctions) <> 0 ->
  createFunction name g st = Ok (name, st).
Proof.
  intros H. unfold createFunction, createFunctionBy.
  destruct (Nat.eqb_spec (StringMap.count name st.(m_requestedFunctions)) 0);
    [contradiction | reflexivity].
Qed.

Lemma createFunctionWith_present (name : string) (g : creator parts) (st : state) :
  name <> "" ->
  StringMap.count name st.(m_requestedFunctions) <> 0 ->
  createFunctionWith name g st = Ok (name, st).
Proof.
  intros Hname H. unfold createFunctionWith, createFunctionWithBy.
  destruct name as [|a name]; [contradiction|]. simpl.
  destruct (Nat.eqb_spec
              (StringMap.count (String a name) st.(m_requestedFunctions)) 0);
    [contradiction | reflexivity].
Qed.

(** ** What [requestedFunctions] returns *)

Lemma collect_texts (c : string) (m : StringMap.t) (acc out : string) :
  collect c m acc = Ok out <->
  exists texts,
    Forall2 (fun e t => snd e <> STUB /\ withSourceLocation c (snd e) = Ok t)
            m texts
    /\ out = acc ++ concatenation texts.
Proof.
  revert acc. induction m as [|[name code] m IH]; intros acc; simpl.
  - split.
    + intros H. injection H as <-. exists []. split; [constructor|].
      simpl. now rewrite StrFacts.append_nil_r.
    + intros (texts & HF & ->). inversion HF; subst. simpl.
      now rewrite StrFacts.append_nil_r.
  - split.
    + intros H. bind_inv H. bind_inv H. rename a0 into text.
      apply IH in H. destruct H as (texts & HF & ->).
      exists (text :: texts). split.
      * constructor; [|exact HF]. simpl. split; [|exact Hr0].
        destruct (String.eqb_spec code STUB); [discriminate | assumption].
      * simpl. now rewrite StrFacts.append_assoc.
    + intros (texts & HF & ->). inversion HF as [|? text ? texts' [Hs Hw] HF']; subst.
      simpl in Hs, Hw.
      destruct (String.eqb_spec code STUB) as [|_]; [contradiction|]. simpl.
      rewrite Hw. simpl. apply IH. exists texts'. split; [exact HF'|].
      now rewrite StrFacts.append_assoc.
Qed.

Lemma withSourceLocation_filled (c code text : string) :
  withSourceLocation c code = Ok text -> code <> "" -> text <> "".
Proof.
  unfold withSourceLocation.
  destruct (negb (contains "/// @src" code) && negb (Str.empty c)).
  - destruct (Regex.search code) as [functionStart|]; [|discriminate].
    intros H _. injection H as <-. intros E.
    apply StrFacts.append_empty in E. destruct E as [_ E].
    apply StrFacts.append_empty in E. destruct E as [_ E].
    discriminate.
  - intros H. injection H as <-. auto.
Qed.

Lemma withSourceLocation_unchanged (c code : string) :
  contains "/// @src" code = true \/ c = "" ->
  withSourceLocation c code = Ok code.
Proof.
  unfold withSourceLocation. intros [-> | ->]; simpl; [reflexivity|].
  now rewrite andb_false_r.
Qed.

(** ** The states between calls *)

Lemma reachable_invariant (st : state) :
  reachable st ->
  StringMap.ordered st.(m_requestedFunctions) /\ filled st.(m_requestedFunctions).
Proof.
  induction 1 as [|st name g r st' _ [IHo IHf] H|st name g r st' _ [IHo IHf] H
                 |st c r st' _ _ H].
  - split; constructor.
  - apply createFunction_requested in H. destruct H as (_ & (O & F & _) & _).
    auto.
  - apply createFunctionWith_requested in H.
    destruct H as ((_ & (O & F & _) & _) & _). auto.
  - unfold requestedFunctions in H. bind_inv H. injection H as _ <-.
    split; constructor.
Qed.

Lemma concatenation_app (a b : list string) :
  concatenation (a ++ b)%list = concatenation a ++ concatenation b.
Proof.
  induction a as [|x a IH]; simpl; [reflexivity|].
  now rewrite IH, StrFacts.append_assoc.
Qed.

Lemma concatenation_filled (texts : list string) :
  Exists (fun t => t <> "") texts -> concatenation texts <> "".
Proof.
  induction 1 as [t texts Ht|t texts _ IH]; simpl; intros E;
    apply StrFacts.append_empty in E; destruct E; auto.
Qed.

Lemma texts_plain (m : StringMap.t) (texts : list string) :
  Forall2 (fun e t => snd e <> STUB /\ withSourceLocation "" (snd e) = Ok t)
          m texts ->
  texts = map snd m.
Proof.
  induction 1 as [|e t m ts [_ Hw] _ IH]; simpl; [reflexivity|].
  rewrite withSourceLocation_unchanged in Hw by (right; reflexivity).
  injection Hw as <-. now rewrite IH.
Qed.

Lemma texts_filled (c : string) (m : StringMap.t) (texts : list string) :
  filled m -> m <> [] ->
  Forall2 (fun e t => snd e <> STUB /\ withSourceLocation c (snd e) = Ok t)
          m texts ->
  concatenation texts <> "".
Proof.
  intros Hf Hne HF. destruct HF as [|e t m ts [_ Hw] _]; [congruence|].
  inversion Hf; subst. apply concatenation_filled. left.
  eapply withSourceLocation_filled; eassumption.
Qed.

Lemma withSourceLocation_header (c before : string) (n : nat) (rest : string) :
  c <> "" ->
  contains "/// @src" (headerLine (before ++ Str.nl) n rest) = false ->
  Regex.search (headerLine (before ++ Str.nl) n rest)
    = Some (String.length before + 1 + n) ->
  withSourceLocation c (headerLine (before ++ Str.nl) n rest)
    = Ok (commentAbove c (before ++ Str.nl) n rest).
Proof.
  intros Hc Hsrc Hpos. unfold withSourceLocation. rewrite Hsrc, Hpos.
  destruct c as [|c0 c]; [contradiction|]. simpl negb. simpl andb. cbv iota.
  unfold headerLine, commentAbove.
  set (indent := Str.fill n Str.tab).
  assert (Hlen : String.length ((before ++ Str.nl) ++ indent)
                 = String.length before + 1 + n).
  { unfold indent.
    rewrite !StrFacts.length_append, StrFacts.length_fill. reflexivity. }
  rewrite <- (StrFacts.append_assoc (before ++ Str.nl) indent rest).
  rewrite <- Hlen.
  rewrite StrFacts.take_append, StrFacts.drop_append.
  rewrite StrFacts.find_last_of_append_no
    by (apply StrFacts.find_last_of_fill; discriminate).
  unfold Str.nl at 1. rewrite StrFacts.find_last_of_end.
  rewrite Hlen.
  replace (String.length before + 1 + n - String.length before - 1) with n by lia.
  fold indent. f_equal. now rewrite !StrFacts.append_assoc.
Qed.

End CollectorFacts.

(** *** C3 *)

(** C3, as amended.  A request for a name that is stored returns the name
    at once, whatever the generator: the collector, the record of
    generator calls included, is left as it was; for the second form this
    holds for every name but the empty one.  After a request of either
    form has returned, the name is stored exactly once, its generator has
    been called at most once by the request, and a further request of
    either form for the name returns it at once. *)
Theorem createFunction_at_most_once (name : string) (st : Collector.state) :
  (StringMap.count name st.(Collector.m_requestedFunctions) <> 0 ->
   (forall g, Collector.createFunction name g st = Ok (name, st))
   /\ (forall g, name <> "" -> Collector.createFunctionWith name g st = Ok (name, st)))
  /\ (StringMap.ordered st.(Collector.m_requestedFunctions) ->
      forall (request : Collector.state -> result (string * Collector.state))
             (r : string) (st1 : Collector.state),
        (exists g, request = Collector.createFunction name g)
        \/ (exists g, request = Collector.createFunctionWith name g) ->
        request st = Ok (r, st1) ->
        r = name
        /\ Collector.calls name st1 <= S (Collector.calls name st)
        /\ StringMap.count name st1.(Collector.m_requestedFunctions) = 1
        /\ (forall g, Collector.createFunction name g st1 = Ok (name, st1))
        /\ (forall g, name <> "" ->
                      Collector.createFunctionWith name g st1 = Ok (name, st1))).
Proof.
  split.
  - intros Hpres. split; intros g.
    + now apply CollectorFacts.createFunction_present.
    + intros Hname. now apply CollectorFacts.createFunctionWith_present.
  - intros Hord request r st1 Hform Hcall.
    assert (Hreq : Collector.requested name st r st1).
    { destruct Hform as [[g ->]|[g ->]].
      - now apply CollectorFacts.createFunction_requested in Hcall.
      - now apply CollectorFacts.createFunctionWith_requested in Hcall. }
    destruct Hreq as (-> & (O & _ & _) & Hpres & Hcalls).
    split; [reflexivity|]. split; [exact Hcalls|]. split.
    + pose proof (StringMapFacts.count_ordered name (O Hord)). lia.
    + split; intros g.
      * now apply CollectorFacts.createFunction_present.
      * intros Hname. now apply CollectorFacts.createFunctionWith_present.
Qed.

Lemma createFunction_at_most_once_witness :
  "f" = "f"
  /\ Collector.calls "f" Examples.afterF <= S (Collector.calls "f" Collector.initial)
  /\ StringMap.count "f" Examples.afterF.(Collector.m_requestedFunctions) = 1
  /\ (forall g, Collector.createFunction "f" g Examples.afterF
                = Ok ("f", Examples.afterF))
  /\ (forall g, "f" <> "" ->
                Collector.createFunctionWith "f" g Examples.afterF
                = Ok ("f", Examples.afterF)).
Proof.
  apply (proj2 (createFunction_at_most_once "f" Collector.initial))
    with (request := Collector.createFunction "f"
                       (Collector.Return Examples.fDefinition)).
  - constructor.
  - left. eexists. reflexivity.
  - reflexivity.
Defined.

(** The second form refuses the empty name before it looks it up: with the
    empty name stored (by the first form), a request of the second form
    for it is a fatal error and does not return the name. *)
Lemma createFunctionWith_empty_name_stored :
  Collector.createFunction "" (Collector.Return "function (") Collector.initial
  = Ok ("", Examples.emptyNameStored)
  /\ StringMap.count "" Examples.emptyNameStored.(Collector.m_requestedFunctions) = 1
  /\ Collector.createFunctionWith "" (Collector.Return ([], [], "body"))
       Examples.emptyNameStored
     = Fatal "".
Proof. repeat split. Qed.

(** *** C4 *)

(** C4.  Between calls the entries are stored in ascending order of their
    names, and [requestedFunctions] returns the texts of the entries, each
    with its source location comment where one is inserted, one after the
    other in that order (with an empty comment: the stored definitions
    themselves).  Two collectors that store the same definitions, in
    whatever order they were requested, return the same text. *)
Theorem requestedFunctions_ascending (c : string) (st1 st2 : Collector.state) :
  Collector.reachable st1 ->
  Collector.reachable st2 ->
  Collector.sameContents st1 st2 ->
  StronglySorted Str.lt (map fst st1.(Collector.m_requestedFunctions))
  /\ (forall out,
        (exists st', Collector.requestedFunctions c st1 = Ok (out, st')) <->
        (exists texts,
            Forall2 (fun e t => snd e <> Collector.STUB
                                /\ Collector.withSourceLocation c (snd e) = Ok t)
                    st1.(Collector.m_requestedFunctions) texts
            /\ out = Collector.concatenation texts))
  /\ (forall out st',
        Collector.requestedFunctions c st1 = Ok (out, st') ->
        (c = "" ->
         out = Collector.concatenation (map snd st1.(Collector.m_requestedFunctions)))
        /\ exists st'', Collector.requestedFunctions c st2 = Ok (out, st'')).
Proof.
  intros R1 R2 Hsame.
  destruct (CollectorFacts.reachable_invariant R1) as [O1 _].
  destruct (CollectorFacts.reachable_invariant R2) as [O2 _].
  split; [exact O1|]. split.
  - intros out. unfold Collector.requestedFunctions. split.
    + intros [st' H]. bind_inv H. injection H as <- _.
      apply CollectorFacts.collect_texts in Hr. exact Hr.
    + intros H. apply (CollectorFacts.collect_texts c _ "" out) in H.
      rewrite H. simpl. eauto.
  - intros out st' H. split.
    + intros ->. unfold Collector.requestedFunctions in H. bind_inv H.
      injection H as <- _.
      apply CollectorFacts.collect_texts in Hr. destruct Hr as (texts & HF & ->).
      simpl. f_equal. exact (CollectorFacts.texts_plain HF).
    + pose proof (StringMapFacts.ordered_ext O1 O2 Hsame) as E.
      unfold Collector.requestedFunctions in *. rewrite <- E.
      bind_inv H. rewrite Hr. simpl. injection H as <- _. eauto.
Qed.

Lemma afterZA_reachable : Collector.reachable Examples.afterZA.
Proof.
  apply Collector.reach_createFunction
    with (st := Examples.afterZ) (_name := "a_helper")
         (_creator := Collector.Return Examples.aDefinition) (r := "a_helper");
    [|reflexivity].
  apply Collector.reach_createFunction
    with (st := Collector.initial) (_name := "z_helper")
         (_creator := Collector.Return Examples.zDefinition) (r := "z_helper");
    [constructor | reflexivity].
Defined.

Lemma afterAZ_reachable : Collector.reachable Examples.afterAZ.
Proof.
  apply Collector.reach_createFunction
    with (st := Examples.afterA) (_name := "z_helper")
         (_creator := Collector.Return Examples.zDefinition) (r := "z_helper");
    [|reflexivity].
  apply Collector.reach_createFunction
    with (st := Collector.initial) (_name := "a_helper")
         (_creator := Collector.Return Examples.aDefinition) (r := "a_helper");
    [constructor | reflexivity].
Defined.

Lemma requestedFunctions_ascending_witness :
  ("" = "" ->
   "function a_helper() {}function z_helper() {}"
   = Collector.concatenation
       (map snd Examples.afterZA.(Collector.m_requestedFunctions)))
  /\ exists st'',
      Collector.requestedFunctions "" Examples.afterAZ
      = Ok ("function a_helper() {}function z_helper() {}", st'').
Proof.
  refine (proj2 (proj2 (@requestedFunctions_ascending ""
                          Examples.afterZA Examples.afterAZ
                          afterZA_reachable afterAZ_reachable _))
            _ (Collector.mkState [] ["a_helper"; "z_helper"]) _).
  - intros name. reflexivity.
  - reflexivity.
Defined.

(** Requesting [z_helper] and then [a_helper] yields the definition of
    [a_helper] before that of [z_helper]. *)
Example z_helper_then_a_helper :
  (do (_, st) <- Collector.createFunction "z_helper"
                   (Collector.Return "function z_helper() {}") Collector.initial;
   do (_, st) <- Collector.createFunction "a_helper"
                   (Collector.Return "function a_helper() {}") st;
   Collector.requestedFunctions "" st)
  = Ok ("function a_helper() {}function z_helper() {}",
        Collector.mkState [] ["a_helper"; "z_helper"]).
Proof. reflexivity. Qed.

(** *** C5 *)

(** C5, as amended.  In what [requestedFunctions] returns, the text of a
    stored definition stands between the texts of the entries before and
    after it.  It is the definition itself, byte for byte, when the
    definition contains [/// @src] or the comment is empty.  When the
    comment is not empty, the definition contains no [/// @src] and its
    header (the first match of the function pattern) follows a line break
    and [n] tabs, it is the definition with the comment, a line break and
    [n] tabs put in front of the header: the comment sits on a line of its
    own above the header line, both after [n] tabs. *)
Theorem requestedFunctions_sourceLocation
  (c : string) (st : Collector.state) (m1 : StringMap.t) (name code : string)
  (m2 : StringMap.t) (out : string) (st' : Collector.state) :
  st.(Collector.m_requestedFunctions) = (m1 ++ (name, code) :: m2)%list ->
  Collector.requestedFunctions c st = Ok (out, st') ->
  exists texts1 text texts2,
    Forall2 (fun e t => snd e <> Collector.STUB
                        /\ Collector.withSourceLocation c (snd e) = Ok t) m1 texts1
    /\ Forall2 (fun e t => snd e <> Collector.STUB
                           /\ Collector.withSourceLocation c (snd e) = Ok t) m2 texts2
    /\ out = Collector.concatenation texts1 ++ text ++ Collector.concatenation texts2
    /\ (Collector.contains "/// @src" code = true \/ c = "" -> text = code)
    /\ (forall before n rest,
          c <> "" ->
          Collector.contains "/// @src" code = false ->
          code = Collector.headerLine (before ++ Str.nl) n rest ->
          Regex.search code = Some (String.length before + 1 + n) ->
          text = Collector.commentAbove c (before ++ Str.nl) n rest).
Proof.
  intros Hm H. unfold Collector.requestedFunctions in H. bind_inv H.
  injection H as <- _. rewrite Hm in Hr.
  apply CollectorFacts.collect_texts in Hr. destruct Hr as (texts & HF & ->).
  apply Forall2_app_inv_l in HF. destruct HF as (texts1 & rest & HF1 & HF2 & ->).
  inversion HF2 as [|? text ? texts2 [_ Hw] HF2']; subst. simpl in Hw.
  exists texts1, text, texts2. split; [exact HF1|]. split; [exact HF2'|]. split.
  - simpl. now rewrite CollectorFacts.concatenation_app.
  - split.
    + intros Hsame.
      rewrite (@CollectorFacts.withSourceLocation_unchanged c code Hsame) in Hw.
      congruence.
    + intros before n rest Hc Hsrc -> Hpos.
      rewrite (@CollectorFacts.withSourceLocation_header _ _ _ _ Hc Hsrc Hpos) in Hw.
      congruence.
Qed.

Lemma requestedFunctions_sourceLocation_witness :
  exists texts1 text texts2,
    Forall2 (fun e t => snd e <> Collector.STUB
                        /\ Collector.withSourceLocation Examples.srcComment (snd e)
                           = Ok t) StringMap.empty texts1
    /\ Forall2 (fun e t => snd e <> Collector.STUB
                           /\ Collector.withSourceLocation Examples.srcComment (snd e)
                              = Ok t) StringMap.empty texts2
    /\ Collector.commentAbove Examples.srcComment Str.nl 4 Examples.fooRest
       = Collector.concatenation texts1 ++ text ++ Collector.concatenation texts2
    /\ (Collector.contains "/// @src" Examples.fooDefinition = true
        \/ Examples.srcComment = "" -> text = Examples.fooDefinition)
    /\ (forall before n rest,
          Examples.srcComment <> "" ->
          Collector.contains "/// @src" Examples.fooDefinition = false ->
          Examples.fooDefinition = Collector.headerLine (before ++ Str.nl) n rest ->
          Regex.search Examples.fooDefinition = Some (String.length before + 1 + n) ->
          text = Collector.commentAbove Examples.srcComment (before ++ Str.nl) n rest).
Proof.
  apply (@requestedFunctions_sourceLocation Examples.srcComment Examples.fooStored
           [] "foo" Examples.fooDefinition [] _ (Collector.mkState [] ["foo"]));
    reflexivity.
Defined.

(** Four tabs before [function foo(]: the comment goes on a line of its
    own above, after four tabs; a definition with a location of its own
    comes back as it is. *)
Example fooDefinition_sourceLocation :
  Collector.contains "/// @src" Examples.fooDefinition = false
  /\ Regex.search Examples.fooDefinition = Some (0 + 1 + 4)
  /\ Collector.requestedFunctions Examples.srcComment Examples.fooStored
     = Ok (Str.nl ++ Str.fill 4 Str.tab ++ "/// @src 0:10:20" ++ Str.nl
           ++ Str.fill 4 Str.tab ++ Examples.fooRest,
           Collector.mkState [] ["foo"])
  /\ Collector.withSourceLocation Examples.srcComment Examples.annotatedDefinition
     = Ok Examples.annotatedDefinition.
Proof. repeat split. Qed.

(** With an empty comment nothing is put above the header, and a header on
    the first line of its definition, after two tabs, is left without tabs
    under a comment that has taken them. *)
Lemma sourceLocation_not_above_header :
  (Collector.contains "/// @src" Examples.fooDefinition = false
   /\ Regex.search Examples.fooDefinition = Some 5
   /\ Collector.requestedFunctions "" Examples.fooStored
      = Ok (Examples.fooDefinition, Collector.mkState [] ["foo"])
   /\ Examples.fooDefinition
      <> Collector.commentAbove "" Str.nl 4 Examples.fooRest)
  /\ (Collector.contains "/// @src" Examples.firstLineDefinition = false
      /\ Regex.search Examples.firstLineDefinition = Some 2
      /\ Collector.requestedFunctions Examples.srcComment Examples.firstLineStored
         = Ok (Str.fill 2 Str.tab ++ "/// @src 0:10:20" ++ Str.nl ++ "function f() {}",
               Collector.mkState [] ["f"])
      /\ Str.fill 2 Str.tab ++ "/// @src 0:10:20" ++ Str.nl ++ "function f() {}"
         <> Collector.commentAbove Examples.srcComment "" 2 "function f() {}").
Proof. repeat split; discriminate. Qed.

(** *** C9 *)

(** C9.  When a collector that stores at least one definition is drained
    twice in a row, the first result is not empty, the collector is empty
    afterwards and the second result is empty. *)
Theorem requestedFunctions_twice
  (c1 c2 : string) (st : Collector.state) (out : string) (st1 : Collector.state) :
  Collector.reachable st ->
  st.(Collector.m_requestedFunctions) <> [] ->
  Collector.requestedFunctions c1 st = Ok (out, st1) ->
  out <> ""
  /\ st1.(Collector.m_requestedFunctions) = StringMap.empty
  /\ Collector.requestedFunctions c2 st1 = Ok ("", st1).
Proof.
  intros Hreach Hne H.
  destruct (CollectorFacts.reachable_invariant Hreach) as [_ Hf].
  unfold Collector.requestedFunctions in H. bind_inv H. injection H as <- <-.
  apply CollectorFacts.collect_texts in Hr. destruct Hr as (texts & HF & ->).
  split; [|split; reflexivity].
  simpl. eapply CollectorFacts.texts_filled; eassumption.
Qed.

Lemma requestedFunctions_twice_witness :
  "function a_helper() {}function z_helper() {}" <> ""
  /\ (Collector.mkState [] ["a_helper"; "z_helper"]).(Collector.m_requestedFunctions)
     = StringMap.empty
  /\ Collector.requestedFunctions Examples.srcComment
       (Collector.mkState [] ["a_helper"; "z_helper"])
     = Ok ("", Collector.mkState [] ["a_helper"; "z_helper"]).
Proof.
  apply (@requestedFunctions_twice "" Examples.srcComment Examples.afterZA
           _ _ afterZA_reachable).
  - discriminate.
  - reflexivity.
Defined.

(** ** The object tree *)

Section ObjectFacts.

Variables Block AsmAnalysisInfo : Type.

Local Abbreviation Object := (Object Block AsmAnalysisInfo).
Local Abbreviation ObjectNode := (ObjectNode Block AsmAnalysisInfo).

Lemma objects_unfold (n : string) (c : option Block) (nodes : list ObjectNode)
  (i : option AsmAnalysisInfo) :
  objects (mkObject n c nodes i) = mkObject n c nodes i :: below nodes.
Proof. reflexivity. Qed.

(** Induction over the tree: a property that holds for an object
    whenever it holds for its sub-objects holds for every object. *)
Lemma Object_tree_ind (P : Object -> Prop) :
  (forall n c nodes i,
      Forall (fun node : ObjectNode =>
                match node with inl _ => True | inr sub => P sub end) nodes ->
      P (mkObject n c nodes i)) ->
  forall o, P o.
Proof.
  intros step. fix IH 1. intros [n c nodes i]. apply step.
  induction nodes as [|[d|sub] rest IHrest]; constructor; auto.
Qed.

End ObjectFacts.

(** ** Analysis *)

Section AnalysisFacts.

Variables Block AsmAnalysisInfo Error EVMVersion : Type.
Variable AsmAnalyzer_analyze :
  Dialect EVMVersion -> list string -> Block -> list Error ->
  bool * AsmAnalysisInfo * list Error.
Variable qualifiedDataNames : Object Block AsmAnalysisInfo -> list string.
Variable newAsmAnalysisInfo : AsmAnalysisInfo.
Variables (_language : Language.t) (_evmVersion : EVMVersion).

Local Abbreviation Object := (Object Block AsmAnalysisInfo).
Local Abbreviation ObjectNode := (ObjectNode Block AsmAnalysisInfo).
Local Abbreviation analyzeObject :=
  (analyzeParsedObject AsmAnalyzer_analyze qualifiedDataNames newAsmAnalysisInfo
     _language _evmVersion).
Local Abbreviation analysesOf :=
  (analyses AsmAnalyzer_analyze qualifiedDataNames newAsmAnalysisInfo
     _language _evmVersion).

Lemma analyses_app (l1 l2 : list Object) (errors : list Error) :
  analysesOf (l1 ++ l2)%list errors
  = let '(o1, e1) := analysesOf l1 errors in
    let '(o2, e2) := analysesOf l2 e1 in
    ((o1 ++ o2)%list, e2).
Proof.
  revert errors. induction l1 as [|[n [b|] nodes i] l1 IH]; intros errors; simpl.
  - destruct (analysesOf l2 errors). reflexivity.
  - destruct (analyzeCode _ _ _ _ _ _ _ _ _) as [[ok info] e0].
    rewrite IH. destruct (analysesOf l1 e0) as [o1 e1].
    destruct (analysesOf l2 e1). reflexivity.
  - apply IH.
Qed.

Lemma analysed_app (b1 a1 b2 a2 : list Object) o1 o2 :
  analysed b1 a1 o1 -> analysed b2 a2 o2 ->
  analysed (b1 ++ b2) (a1 ++ a2) (o1 ++ o2).
Proof.
  intros (I1 & N1 & C1) (I2 & N2 & C2). unfold analysed.
  rewrite !map_app. repeat split; congruence.
Qed.

Lemma analyzeSubObjects_inl analyzeSub (d : Data) (rest : list ObjectNode)
  (success : bool) (errors : list Error) :
  analyzeSubObjects analyzeSub (inl d :: rest) success errors
  = do r <- analyzeSubObjects analyzeSub rest success errors;
    let '(success, rest, errors) := r in
    Ok (success, inl d :: rest, errors).
Proof. reflexivity. Qed.

Lemma analyzeSubObjects_inr analyzeSub (sub : Object) (rest : list ObjectNode)
  (success : bool) (errors : list Error) :
  analyzeSubObjects analyzeSub (inr sub :: rest) success errors
  = do r <- analyzeSub sub errors;
    let '(ok, sub, errors) := r in
    do r <- analyzeSubObjects analyzeSub rest
              (if negb ok then false else success) errors;
    let '(success, rest, errors) := r in
    Ok (success, inr sub :: rest, errors).
Proof. reflexivity. Qed.

Local Abbreviation analysesObject :=
  (analysesObject AsmAnalyzer_analyze qualifiedDataNames newAsmAnalysisInfo
     _language _evmVersion).

Lemma analyzeSubObjects_analyses (nodes : list ObjectNode) :
  Forall (fun node : ObjectNode =>
            match node with inl _ => True | inr sub => analysesObject sub end)
         nodes ->
  Forall (@hasCode _ _) (below nodes) ->
  forall success errors,
    let '(outcomes, errors') := analysesOf (below nodes) errors in
    exists nodes',
      analyzeSubObjects analyzeObject nodes success errors
      = Ok (success && forallb fst outcomes, nodes', errors')
      /\ analysed (below nodes) (below nodes') outcomes.
Proof.
  induction 1 as [|[d|sub] rest Hsub _ IH]; intros Hcode success errors.
  - simpl. exists []. rewrite andb_true_r. repeat split.
  - specialize (IH Hcode success errors).
    change (below (inl d :: rest)) with (below rest).
    destruct (analysesOf (below rest) errors) as [outcomes errors'].
    destruct IH as (rest' & Hrest & Han).
    exists (inl d :: rest'). rewrite analyzeSubObjects_inl, Hrest.
    split; [reflexivity | exact Han].
  - change (below (inr sub :: rest)) with (objects sub ++ below rest)%list in *.
    apply Forall_app in Hcode. destruct Hcode as [Hc1 Hc2].
    rewrite analyses_app. specialize (Hsub Hc1 errors).
    destruct (analysesOf (objects sub) errors) as [o1 e1].
    destruct Hsub as (sub' & Hrun & Han1).
    specialize (IH Hc2 (if negb (forallb fst o1) then false else success) e1).
    destruct (analysesOf (below rest) e1) as [o2 e2].
    destruct IH as (rest' & Hrest & Han2).
    exists (inr sub' :: rest'). split.
    + rewrite analyzeSubObjects_inr, Hrun. cbn [bind].
      rewrite Hrest. cbn [bind]. rewrite forallb_app.
      destruct (forallb fst o1), success; reflexivity.
    + change (below (inr sub' :: rest')) with (objects sub' ++ below rest')%list.
      now apply analysed_app.
Qed.

Lemma analyzeParsedObject_analyses (o : Object) : analysesObject o.
Proof.
  induction o as [n c nodes i IH] using Object_tree_ind.
  intros Hcode errors. rewrite objects_unfold in *.
  inversion Hcode as [|? ? Hroot Hbelow]; subst.
  destruct c as [block|]; [|discriminate Hroot].
  cbn [analyses analyzeParsedObject require bind].
  destruct (analyzeCode _ _ _ _ _ _ _ _ _) as [[ok info] e0].
  pose proof (analyzeSubObjects_analyses IH Hbelow ok e0) as Hloop.
  destruct (analysesOf (below nodes) e0) as [outcomes e1].
  destruct Hloop as (nodes' & -> & (HI & HN & HC)).
  cbn [bind]. eexists. split; [reflexivity|].
  rewrite objects_unfold. unfold analysed. simpl. repeat split; congruence.
Qed.

(** A run that returns has found code in every object. *)
Lemma analyzeSubObjects_hasCode (nodes : list ObjectNode) :
  Forall (fun node : ObjectNode =>
            match node with
            | inl _ => True
            | inr sub => forall errors r, analyzeObject sub errors = Ok r ->
                                          Forall (@hasCode _ _) (objects sub)
            end) nodes ->
  forall success errors r,
    analyzeSubObjects analyzeObject nodes success errors = Ok r ->
    Forall (@hasCode _ _) (below nodes).
Proof.
  induction 1 as [|[d|sub] rest Hsub _ IH]; intros success errors r H.
  - constructor.
  - rewrite analyzeSubObjects_inl in H. bind_inv H. eauto.
  - rewrite analyzeSubObjects_inr in H. bind_inv H.
    destruct a as [[ok sub'] e1]. bind_inv H.
    change (below (inr sub :: rest)) with (objects sub ++ below rest)%list.
    apply Forall_app. split; eauto.
Qed.

Lemma analyzeParsedObject_hasCode (o : Object) :
  forall errors r, analyzeObject o errors = Ok r ->
                   Forall (@hasCode _ _) (objects o).
Proof.
  induction o as [n c nodes i IH] using Object_tree_ind.
  intros errors r H. rewrite objects_unfold.
  cbn [analyzeParsedObject] in H. bind_inv H.
  destruct c as [block|]; [|discriminate Hr].
  destruct (analyzeCode _ _ _ _ _ _ _ _ _) as [[ok info] e0].
  bind_inv H. constructor; [reflexivity|].
  eapply analyzeSubObjects_hasCode; eassumption.
Qed.

Lemma analyses_length (l : list Object) (errors : list Error) :
  Forall (@hasCode _ _) l ->
  List.length (fst (analysesOf l errors)) = List.length l.
Proof.
  intros H. revert errors.
  induction H as [|[n [b|] nodes i] l Hc _ IH]; intros errors; simpl;
    [reflexivity| |discriminate Hc].
  destruct (analyzeCode _ _ _ _ _ _ _ _ _) as [[ok info] e0].
  specialize (IH e0). destruct (analysesOf l e0). simpl in *. now rewrite IH.
Qed.

Lemma analyses_reporting (l : list Object) (errors : list Error) :
  reporting AsmAnalyzer_analyze ->
  let '(outcomes, errors') := analysesOf l errors in
  forallb fst outcomes = false \/ errors <> [] -> errors' <> [].
Proof.
  intros Hrep. revert errors.
  induction l as [|[n [b|] nodes i] l IH]; intros errors; simpl.
  - intros [H|H]; [discriminate | exact H].
  - unfold analyzeCode.
    specialize (Hrep (languageToDialect _language _evmVersion)
                  (qualifiedDataNames (mkObject n (Some b) nodes (Some newAsmAnalysisInfo)))
                  b errors).
    destruct (AsmAnalyzer_analyze _ _ _ _) as [[ok info] e0].
    specialize (IH e0). destruct (analysesOf l e0) as [outcomes e1].
    simpl. intros H. apply IH.
    destruct ok; simpl in H.
    + destruct H as [H|H]; [left; exact H | right; apply Hrep; right; exact H].
    + right. apply Hrep. left. reflexivity.
  - apply IH.
Qed.

End AnalysisFacts.

(** ** [parseAndAnalyze] *)

Section ParseFacts.

Variables Block AsmAnalysisInfo Error EVMVersion : Type.
Variable ObjectParser_parse :
  Dialect EVMVersion -> Scanner -> list Error ->
  option (Object Block AsmAnalysisInfo) * list Error.
Variable AsmAnalyzer_analyze :
  Dialect EVMVersion -> list string -> Block -> list Error ->
  bool * AsmAnalysisInfo * list Error.
Variable qualifiedDataNames : Object Block AsmAnalysisInfo -> list string.
Variable newAsmAnalysisInfo : AsmAnalysisInfo.

Local Abbreviation Object := (Object Block AsmAnalysisInfo).
Local Abbreviation AssemblyStack := (AssemblyStack Block AsmAnalysisInfo Error EVMVersion).
Local Abbreviation run :=
  (parseAndAnalyze ObjectParser_parse AsmAnalyzer_analyze qualifiedDataNames
     newAsmAnalysisInfo).
Local Abbreviation analysesOf st :=
  (analyses AsmAnalyzer_analyze qualifiedDataNames newAsmAnalysisInfo
     st.(m_language) st.(m_evmVersion)).

Variables (_sourceName _source : string) (st : AssemblyStack).
Variables (tree : option Object) (diagnostics : list Error).

(** What the parser returns for the source. *)
Hypothesis parsed :
  ObjectParser_parse (languageToDialect st.(m_language) st.(m_evmVersion))
    (mkScanner (Some (mkCharStream _source _sourceName))) []
  = (tree, diagnostics).

Lemma parseAndAnalyze_diagnostics :
  diagnostics <> [] ->
  exists st',
    run _sourceName _source st = Ok (false, st')
    /\ st'.(m_errors) = diagnostics
    /\ st'.(m_analysisSuccessful) = false.
Proof.
  intros Hd. unfold parseAndAnalyze. cbn. rewrite parsed. cbn.
  destruct diagnostics; [contradiction|]. eauto.
Qed.

Lemma parseAndAnalyze_analysis (root : Object) :
  diagnostics = [] -> tree = Some root ->
  Forall (@hasCode _ _) (objects root) ->
  let '(outcomes, errors) := analysesOf st (objects root) [] in
  exists st' root',
    run _sourceName _source st = Ok (forallb fst outcomes, st')
    /\ st'.(m_errors) = errors
    /\ st'.(m_analysisSuccessful) = forallb fst outcomes
    /\ st'.(m_parserResult) = Some root'
    /\ analysed (objects root) (objects root') outcomes.
Proof.
  intros Hd Ht Hcode.
  pose proof (@analyzeParsedObject_analyses _ _ _ _ AsmAnalyzer_analyze
                qualifiedDataNames newAsmAnalysisInfo
                st.(m_language) st.(m_evmVersion) root Hcode []) as Hrun.
  destruct (analysesOf st (objects root) []) as [outcomes errors].
  destruct Hrun as (root' & Hrun & Han).
  unfold parseAndAnalyze. cbn. rewrite parsed. subst. cbn.
  assert (Hroot : present (code root) = true).
  { destruct root. inversion Hcode; subst. assumption. }
  rewrite Hroot. cbn. unfold analyzeParsed. cbn. rewrite Hrun. cbn.
  eexists _, root'. repeat split; try reflexivity; apply Han.
Qed.

Lemma parseAndAnalyze_returns (ok : bool) (st' : AssemblyStack) :
  run _sourceName _source st = Ok (ok, st') ->
  diagnostics = [] ->
  exists root, tree = Some root /\ Forall (@hasCode _ _) (objects root).
Proof.
  intros H Hd. unfold parseAndAnalyze in H. cbn in H.
  rewrite parsed in H. subst. cbn in H.
  bind_inv H. destruct tree as [root|]; [|discriminate Hr].
  injection Hr as <-. exists root. split; [reflexivity|].
  bind_inv H. unfold analyzeParsed in H. cbn in H. bind_inv H.
  eapply analyzeParsedObject_hasCode. eassumption.
Qed.

Lemma analysed_hasAnalysisInfo (before after : list Object) outcomes :
  analysed before after outcomes -> Forall (@hasAnalysisInfo _ _) after.
Proof.
  intros [HI _]. revert outcomes HI.
  induction after as [|o after IH]; intros [|r outcomes] HI;
    try discriminate; constructor.
  - injection HI as Ho _. unfold hasAnalysisInfo. now rewrite Ho.
  - injection HI as _ HI. eauto.
Qed.

(** *** C6 *)

(** C6.  With [tree] and [diagnostics] what the parser returns for the
    source: when there are diagnostics, [parseAndAnalyze] returns false
    and they are the diagnostics list, which is not empty.  It returns
    true exactly when there are no diagnostics and the analysis of every
    object of the tree succeeds, and then the tree is there.  When there
    are no diagnostics, it returns the conjunction of the outcomes of one
    analysis per object of the tree, each run over the diagnostics the
    ones before it left, whether these succeeded or not.  With an
    analyzer that reports what makes it fail, the diagnostics list is
    not empty whenever false is returned. *)
Theorem parseAndAnalyze_outcome :
  (diagnostics <> [] ->
   exists st', run _sourceName _source st = Ok (false, st')
               /\ st'.(m_errors) = diagnostics /\ st'.(m_errors) <> [])
  /\ ((exists st', run _sourceName _source st = Ok (true, st')) <->
      diagnostics = []
      /\ exists root,
          tree = Some root /\ Forall (@hasCode _ _) (objects root)
          /\ forallb fst (fst (analysesOf st (objects root) [])) = true)
  /\ (forall st', run _sourceName _source st = Ok (true, st') ->
                  present st'.(m_parserResult) = true)
  /\ (forall root,
        diagnostics = [] -> tree = Some root ->
        Forall (@hasCode _ _) (objects root) ->
        let '(outcomes, errors) := analysesOf st (objects root) [] in
        List.length outcomes = List.length (objects root)
        /\ exists st',
            run _sourceName _source st = Ok (forallb fst outcomes, st')
            /\ st'.(m_errors) = errors)
  /\ (reporting AsmAnalyzer_analyze ->
      forall st', run _sourceName _source st = Ok (false, st') ->
                  st'.(m_errors) <> []).
Proof.
  split; [|split; [|split; [|split]]].
  - intros Hd. destruct (parseAndAnalyze_diagnostics Hd) as (st' & H & E & _).
    exists st'. repeat split; congruence.
  - split.
    + intros [st' H].
      destruct (nil_or_not diagnostics) as [Hd|Hd].
      * split; [exact Hd|].
        destruct (parseAndAnalyze_returns H Hd) as (root & Ht & Hc).
        exists root. repeat split; try assumption.
        pose proof (parseAndAnalyze_analysis Hd Ht Hc) as Hrun.
        destruct (analysesOf st (objects root) []) as [outcomes errors].
        destruct Hrun as (st'' & root' & Hrun & _). simpl. congruence.
      * destruct (parseAndAnalyze_diagnostics Hd) as (st'' & H' & _).
        congruence.
    + intros (Hd & root & Ht & Hc & Hok).
      pose proof (parseAndAnalyze_analysis Hd Ht Hc) as Hrun.
      destruct (analysesOf st (objects root) []) as [outcomes errors].
      destruct Hrun as (st'' & root' & Hrun & _). simpl in Hok.
      rewrite Hok in Hrun. eauto.
  - intros st' H.
    destruct (nil_or_not diagnostics) as [Hd|Hd].
    + destruct (parseAndAnalyze_returns H Hd) as (root & Ht & Hc).
      pose proof (parseAndAnalyze_analysis Hd Ht Hc) as Hrun.
      destruct (analysesOf st (objects root) []) as [outcomes errors].
      destruct Hrun as (st'' & root' & Hrun & _ & _ & Hres & _).
      rewrite Hrun in H. injection H as _ <-. now rewrite Hres.
    + destruct (parseAndAnalyze_diagnostics Hd) as (st'' & H' & _).
      congruence.
  - intros root Hd Ht Hc.
    pose proof (parseAndAnalyze_analysis Hd Ht Hc) as Hrun.
    pose proof (analyses_length AsmAnalyzer_analyze qualifiedDataNames
                  newAsmAnalysisInfo st.(m_language) st.(m_evmVersion) [] Hc)
      as Hlen.
    destruct (analysesOf st (objects root) []) as [outcomes errors].
    destruct Hrun as (st' & root' & Hrun & He & _).
    split; [exact Hlen | eauto].
  - intros Hrep st' H.
    destruct (nil_or_not diagnostics) as [Hd|Hd].
    + destruct (parseAndAnalyze_returns H Hd) as (root & Ht & Hc).
      pose proof (parseAndAnalyze_analysis Hd Ht Hc) as Hrun.
      pose proof (analyses_reporting qualifiedDataNames newAsmAnalysisInfo
                    st.(m_language) st.(m_evmVersion) (objects root) [] Hrep)
        as Hrepd.
      destruct (analysesOf st (objects root) []) as [outcomes errors].
      destruct Hrun as (st'' & root' & Hrun & He & _).
      rewrite Hrun in H. injection H as Hok <-. rewrite He.
      apply Hrepd. left. exact Hok.
    + destruct (parseAndAnalyze_diagnostics Hd) as (st'' & H' & He & _).
      rewrite H' in H. injection H as <-. congruence.
Qed.

(** *** C10 *)

(** C10.  When every object of a tree has code, the analysis of the tree
    returns, with every object analyzed once, and leaves every object
    with the metadata the analyzer filled in for it in this run, whether
    the analysis of that object, or of any other, succeeded or not.
    Hence every run of [parseAndAnalyze] that gets past parsing and
    returns, with true or with false, leaves a tree all of whose objects
    have metadata. *)
Theorem analyzeParsed_metadata :
  (forall _language _evmVersion (o : Object) (errors : list Error),
      Forall (@hasCode _ _) (objects o) ->
      let '(outcomes, errors') :=
        analyses AsmAnalyzer_analyze qualifiedDataNames newAsmAnalysisInfo
          _language _evmVersion (objects o) errors in
      List.length outcomes = List.length (objects o)
      /\ exists o',
          analyzeParsedObject AsmAnalyzer_analyze qualifiedDataNames
            newAsmAnalysisInfo _language _evmVersion o errors
          = Ok (forallb fst outcomes, o', errors')
          /\ map (@analysisInfo _ _) (objects o')
             = map (fun r => Some (snd r)) outcomes
          /\ Forall (@hasAnalysisInfo _ _) (objects o'))
  /\ (forall ok st',
        diagnostics = [] ->
        run _sourceName _source st = Ok (ok, st') ->
        exists root',
          st'.(m_parserResult) = Some root'
          /\ Forall (@hasAnalysisInfo _ _) (objects root')).
Proof.
  split.
  - intros lang ver o errors Hc.
    pose proof (@analyzeParsedObject_analyses _ _ _ _ AsmAnalyzer_analyze
                  qualifiedDataNames newAsmAnalysisInfo lang ver o Hc errors)
      as Hrun.
    pose proof (analyses_length AsmAnalyzer_analyze qualifiedDataNames
                  newAsmAnalysisInfo lang ver errors Hc) as Hlen.
    destruct (analyses _ _ _ _ _ _ _) as [outcomes errors'].
    destruct Hrun as (o' & Hrun & Han).
    split; [exact Hlen|]. exists o'. split; [exact Hrun|].
    split; [apply Han | exact (analysed_hasAnalysisInfo Han)].
  - intros ok st' Hd H.
    destruct (parseAndAnalyze_returns H Hd) as (root & Ht & Hc).
    pose proof (parseAndAnalyze_analysis Hd Ht Hc) as Hrun.
    destruct (analysesOf st (objects root) []) as [outcomes errors].
    destruct Hrun as (st'' & root' & Hrun & _ & _ & Hres & Han).
    rewrite Hrun in H. injection H as _ <-.
    exists root'. split; [exact Hres | exact (analysed_hasAnalysisInfo Han)].
Qed.

End ParseFacts.

(** ** [translate] *)

Section TranslateFacts.

Variables Block AsmAnalysisInfo Error EVMVersion : Type.
Variable EVMToEwasmTranslator_run :
  Dialect EVMVersion -> Object Block AsmAnalysisInfo -> Object Block AsmAnalysisInfo.

Local Abbreviation AssemblyStack := (AssemblyStack Block AsmAnalysisInfo Error EVMVersion).

(** *** C2 *)

(** C2, as amended.  [translate] leaves the job as it is when the target
    is the language of the job.  Any other pair than strict assembly to
    Ewasm is a fatal error.  From strict assembly to Ewasm it requires
    the analysis to have succeeded, a fatal error otherwise; given that,
    and a tree with code, the tree is replaced by its translation and
    the language by Ewasm, while the analysed flag and the diagnostics
    stay as they are: the analysis is not run again. *)
Theorem translate_transitions (_targetLanguage : Language.t) (st : AssemblyStack) :
  (st.(m_language) = _targetLanguage ->
   translate EVMToEwasmTranslator_run _targetLanguage st = Ok st)
  /\ (st.(m_language) <> _targetLanguage ->
      ~ (st.(m_language) = Language.StrictAssembly
         /\ _targetLanguage = Language.Ewasm) ->
      translate EVMToEwasmTranslator_run _targetLanguage st
      = Fatal "Invalid language combination")
  /\ (st.(m_language) = Language.StrictAssembly ->
      _targetLanguage = Language.Ewasm ->
      (st.(m_analysisSuccessful) = false ->
       translate EVMToEwasmTranslator_run _targetLanguage st
       = Fatal "Analysis was not successful.")
      /\ (forall root,
            st.(m_analysisSuccessful) = true ->
            st.(m_parserResult) = Some root ->
            hasCode root ->
            exists st',
              translate EVMToEwasmTranslator_run _targetLanguage st = Ok st'
              /\ st'.(m_language) = Language.Ewasm
              /\ st'.(m_parserResult)
                 = Some (EVMToEwasmTranslator_run
                           (strictAssemblyForEVMObjects st.(m_evmVersion)) root)
              /\ st'.(m_analysisSuccessful) = st.(m_analysisSuccessful)
              /\ st'.(m_errors) = st.(m_errors)
              /\ st'.(m_scanner) = st.(m_scanner))).
Proof.
  unfold translate. split; [|split].
  - intros <-. destruct (Language_eqb_spec st.(m_language) st.(m_language));
      [reflexivity | contradiction].
  - intros Hne Hpair.
    destruct (Language_eqb_spec st.(m_language) _targetLanguage);
      [contradiction|].
    destruct (Language_eqb_spec st.(m_language) Language.StrictAssembly),
             (Language_eqb_spec _targetLanguage Language.Ewasm);
      simpl; try reflexivity.
    exfalso. apply Hpair. split; assumption.
  - intros Hl ->. rewrite Hl. simpl. unfold parserResult. split.
    + intros ->. reflexivity.
    + intros root Ha Hp Hcode. unfold hasCode in Hcode.
      rewrite Ha, Hp. simpl. rewrite Hcode. simpl.
      eexists. repeat split. simpl. congruence.
Qed.

End TranslateFacts.

(** ** [optimize] *)

Section OptimiseFacts.

Variables Block AsmAnalysisInfo EVMVersion : Type.
Variable OptimiserSuite_run :
  Dialect EVMVersion -> option (GasMeter EVMVersion) ->
  Object Block AsmAnalysisInfo -> bool -> string -> option nat ->
  list string -> Object Block AsmAnalysisInfo.
Variables (_language : Language.t) (_evmVersion : EVMVersion)
          (_settings : OptimiserSettings).

Local Abbreviation Object := (Object Block AsmAnalysisInfo).
Local Abbreviation ObjectNode := (ObjectNode Block AsmAnalysisInfo).
Local Abbreviation optimizeOne :=
  (optimizeObject OptimiserSuite_run _language _evmVersion _settings).
Local Abbreviation nestedCall :=
  (suiteCallFor (Block := Block) (AsmAnalysisInfo := AsmAnalysisInfo)
     _language _evmVersion _settings false).

Local Abbreviation SuiteCall := (SuiteCall Block AsmAnalysisInfo EVMVersion).

Lemma optimizeSubObjects_inl
  (optimizeSub : Object -> bool -> result (Object * list SuiteCall))
  (d : Data) (rest : list ObjectNode) :
  optimizeSubObjects optimizeSub (inl d :: rest)
  = do r <- optimizeSubObjects optimizeSub rest;
    let '(rest, calls) := r in
    Ok (inl d :: rest, calls).
Proof. reflexivity. Qed.

Lemma optimizeSubObjects_inr
  (optimizeSub : Object -> bool -> result (Object * list SuiteCall))
  (sub : Object) (rest : list ObjectNode) :
  optimizeSubObjects optimizeSub (inr sub :: rest)
  = do r <- optimizeSub sub false;
    let '(sub, calls1) := r in
    do r <- optimizeSubObjects optimizeSub rest;
    let '(rest, calls2) := r in
    Ok (inr sub :: rest, (calls1 ++ calls2)%list).
Proof. reflexivity. Qed.

(** The calls made for an object: those for the objects below it, all
    made as for nested objects, and last the one for the object. *)
Lemma optimizeObject_calls (o : Object) :
  forall _isCreation o' calls,
    optimizeOne o _isCreation = Ok (o', calls) ->
    exists nested call,
      calls = (nested ++ [call])%list
      /\ Forall nestedCall nested
      /\ suiteCallFor _language _evmVersion _settings _isCreation call
      /\ List.length calls = List.length (objects o).
Proof.
  induction o as [n c nodes i IH] using Object_tree_ind.
  intros _isCreation o' calls H. cbn [optimizeObject] in H.
  bind_inv H. bind_inv H. bind_inv H. destruct a1 as [nodes' nested].
  injection H as _ <-.
  assert (Hnested : Forall nestedCall nested
                    /\ List.length nested = List.length (below nodes)).
  { clear Hr Hr0. revert nodes' nested Hr1.
    induction IH as [|[d|sub] rest Hsub _ IHrest]; intros nodes' nested Hloop.
    - injection Hloop as _ <-. split; [constructor | reflexivity].
    - rewrite optimizeSubObjects_inl in Hloop. bind_inv_as Hloop r1 Hrest.
      destruct r1 as [rest' calls']. injection Hloop as _ <-. eauto.
    - rewrite optimizeSubObjects_inr in Hloop. bind_inv_as Hloop r1 Hone.
      destruct r1 as [sub' calls1]. bind_inv_as Hloop r2 Hrest.
      destruct r2 as [rest' calls2]. injection Hloop as _ <-.
      destruct (Hsub _ _ _ Hone) as (nested1 & call1 & -> & Hn1 & Hc1 & Hl1).
      destruct (IHrest _ _ Hrest) as [Hn2 Hl2].
      change (below (inr sub :: rest)) with (objects sub ++ below rest)%list.
      split.
      + apply Forall_app. split; [|exact Hn2].
        apply Forall_app. split; [exact Hn1 | constructor; [exact Hc1 | constructor]].
      + rewrite !length_app in *. simpl in *. lia. }
  destruct Hnested as [Hn Hl].
  exists nested. eexists. split; [reflexivity|]. split; [exact Hn|]. split.
  - repeat split.
  - rewrite objects_unfold, length_app. simpl. lia.
Qed.

Variable Error : Type.
Variable AsmAnalyzer_analyze :
  Dialect EVMVersion -> list string -> Block -> list Error ->
  bool * AsmAnalysisInfo * list Error.
Variable qualifiedDataNames : Object -> list string.
Variable newAsmAnalysisInfo : AsmAnalysisInfo.

(** *** C8 *)

(** C8, as amended.  The cost model is built exactly for the languages
    whose dialect is of the EVM family, that is, for all but Ewasm, and
    it is given the expected executions per deployment next to the
    creation flag.  The estimate handed to the optimiser suite itself
    does not depend on the dialect: it is absent for an object
    optimised as creation code and present for any other.  [optimize()]
    optimises the root as creation code; the calls of the suite for an
    object are those for the objects below it, all made as for nested
    objects, followed by the one for the object itself. *)
Theorem optimize_cost_model_and_estimate :
  (forall _isCreation,
      present (meterFor _settings (languageToDialect _language _evmVersion)
                 _isCreation) = true
      <-> _language <> Language.Ewasm)
  /\ (forall _isCreation meter,
        meterFor _settings (languageToDialect _language _evmVersion) _isCreation
        = Some meter ->
        meter.(gm_runs) = _settings.(expectedExecutionsPerDeployment)
        /\ meter.(gm_isCreation) = _isCreation)
  /\ estimateFor _settings true = None
  /\ estimateFor _settings false = Some _settings.(expectedExecutionsPerDeployment)
  /\ (forall o _isCreation o' calls,
        optimizeOne o _isCreation = Ok (o', calls) ->
        exists nested call,
          calls = (nested ++ [call])%list
          /\ Forall nestedCall nested
          /\ suiteCallFor _language _evmVersion _settings _isCreation call
          /\ List.length calls = List.length (objects o))
  /\ (forall (st st' : AssemblyStack Block AsmAnalysisInfo Error EVMVersion) calls,
        st.(m_optimiserSettings).(runYulOptimiser) = true ->
        optimize AsmAnalyzer_analyze qualifiedDataNames newAsmAnalysisInfo
          OptimiserSuite_run st = Ok (st', calls) ->
        exists root root',
          st.(m_parserResult) = Some root
          /\ optimizeObject OptimiserSuite_run st.(m_language) st.(m_evmVersion)
               st.(m_optimiserSettings) root true = Ok (root', calls)).
Proof.
  split; [|split; [|split; [|split; [|split]]]].
  - intros b. destruct _language; simpl; split; congruence.
  - intros b meter. destruct _language; simpl; intros H;
      try discriminate; injection H as <-; split; reflexivity.
  - reflexivity.
  - reflexivity.
  - intros o. apply optimizeObject_calls.
  - intros st st' calls Hon H. unfold optimize in H. rewrite Hon in H.
    simpl in H. bind_inv_as H u Hflag. bind_inv_as H root Hroot.
    bind_inv_as H r Hopt. destruct r as [root' calls']. simpl in Hroot.
    bind_inv_as H r Hana. destruct r as [ok st'']. bind_inv_as H u' Hok.
    injection H as _ <-.
    destruct st.(m_parserResult) as [root0|]; [|discriminate Hroot].
    injection Hroot as ->. exists root, root'. split; [reflexivity | exact Hopt].
Qed.

End OptimiseFacts.

(** ** [assembleWithDeployed] *)

Section AssembleFacts.

Variables Block AsmAnalysisInfo Error AssemblyItem EVMVersion : Type.
Variable EVMObjectCompiler_compile :
  Object Block AsmAnalysisInfo -> Dialect EVMVersion -> bool -> Assembly AssemblyItem.
Variable assemble : Assembly AssemblyItem -> LinkerObject.
Variable assemblyString : Assembly AssemblyItem -> string.
Variable computeSourceMapping : list AssemblyItem -> list (string * nat) -> string.

Local Abbreviation Assembly := (Assembly AssemblyItem).
Local Abbreviation AssemblyStack := (AssemblyStack Block AsmAnalysisInfo Error EVMVersion).
Local Abbreviation assembleWithDeployed' :=
  (assembleWithDeployed EVMObjectCompiler_compile assemble assemblyString
     computeSourceMapping).
Local Abbreviation compile st :=
  (compileEVM EVMObjectCompiler_compile st
     st.(m_optimiserSettings).(optimizeStackAllocation)).
Local Abbreviation objectOf' :=
  (objectOf assemble assemblyString computeSourceMapping).

Lemma findSub_none (n : string) (l : list Assembly) (k : nat) :
  (forall a, In a l -> asm_name a <> n) -> findSub n l k = None.
Proof.
  revert k. induction l as [|a l IH]; intros k H; simpl; [reflexivity|].
  destruct (String.eqb_spec (asm_name a) n) as [E|_].
  - exfalso. exact (H a (or_introl eq_refl) E).
  - apply IH. intros b Hb. apply H. right. exact Hb.
Qed.

(** The loop stops at the first sub-assembly of the name. *)
Lemma findSub_first (n : string) (l : list Assembly) (k i : nat) (a : Assembly) :
  nth_error l i = Some a -> asm_name a = n ->
  (forall j b, j < i -> nth_error l j = Some b -> asm_name b <> n) ->
  findSub n l k = Some (k + i).
Proof.
  revert k i. induction l as [|x l IH]; intros k [|i] Hi Hn Hfirst; simpl in *;
    try discriminate.
  - injection Hi as ->. rewrite Hn, String.eqb_refl. f_equal. lia.
  - destruct (String.eqb_spec (asm_name x) n) as [E|_].
    + exfalso. apply (Hfirst 0 x); [lia | reflexivity | exact E].
    + rewrite (IH (S k) i Hi Hn); [f_equal; lia|].
      intros j b Hj Hb. apply (Hfirst (S j) b); [lia | exact Hb].
Qed.

(** Up to the choice of the deployed object. *)
Lemma assembleWithDeployed_creation
  (_deployName : option string) (st : AssemblyStack)
  (root : Object Block AsmAnalysisInfo) (assembly : Assembly) :
  st.(m_analysisSuccessful) = true ->
  st.(m_parserResult) = Some root ->
  hasCode root -> hasAnalysisInfo root ->
  compile st = Ok assembly ->
  assembleWithDeployed' _deployName st
  = (check match (assemble assembly).(immutableReferences) with
           | [] => true
           | _ => false
           end otherwise "Leftover immutables.";
     do creationObject <- machineObject assemble assemblyString
                            computeSourceMapping st assembly;
     do subIndex <-
       match _deployName with
       | Some deployName =>
           let subIndex := findSub deployName (subs assembly) 0 in
           check present subIndex
             otherwise "Failed to find object to be deployed.";
           Ok subIndex
       | None => Ok (if Nat.eqb (numSubs assembly) 1 then Some 0 else None)
       end;
     do deployedObject <-
       match subIndex with
       | Some i =>
           do runtimeAssembly <- sub assembly i;
           machineObject assemble assemblyString computeSourceMapping st
             runtimeAssembly
       | None => Ok emptyObject
       end;
     Ok (creationObject, deployedObject)).
Proof.
  intros Ha Hp Hc Hi Hcompile. unfold assembleWithDeployed.
  unfold hasCode in Hc. unfold hasAnalysisInfo in Hi.
  rewrite Ha, Hp. cbn [assert bind require]. rewrite Hc, Hi.
  cbn [assert bind]. rewrite Hcompile. reflexivity.
Qed.

Lemma assembleWithDeployed_requires
  (_deployName : option string) (st : AssemblyStack) r :
  assembleWithDeployed' _deployName st = Ok r ->
  exists root assembly,
    st.(m_analysisSuccessful) = true
    /\ st.(m_parserResult) = Some root
    /\ hasCode root /\ hasAnalysisInfo root
    /\ compile st = Ok assembly.
Proof.
  intros H. unfold assembleWithDeployed in H.
  bind_inv_as H u1 Hflag. bind_inv_as H root Hroot.
  bind_inv_as H u2 Hcode. bind_inv_as H u3 Hinfo.
  bind_inv_as H assembly Hcompile.
  destruct st.(m_parserResult) as [root0|] eqn:Hp; [|discriminate Hroot].
  injection Hroot as ->. exists root, assembly. repeat split; assumption.
Qed.

(** *** C7 *)

(** C7.  The creation object [assembleWithDeployed] returns holds the
    linked bytes of the assembly the job compiles to, and these have no
    immutable reference left; when the linked bytes of that assembly
    have one, the call is a fatal error. *)
Theorem assembleWithDeployed_no_immutables
  (_deployName : option string) (st : AssemblyStack) :
  (forall creationObject deployedObject,
      assembleWithDeployed' _deployName st = Ok (creationObject, deployedObject) ->
      exists assembly,
        compile st = Ok assembly
        /\ creationObject.(mao_bytecode) = Some (assemble assembly)
        /\ (assemble assembly).(immutableReferences) = [])
  /\ (forall root assembly,
        st.(m_analysisSuccessful) = true ->
        st.(m_parserResult) = Some root ->
        hasCode root -> hasAnalysisInfo root ->
        compile st = Ok assembly ->
        (assemble assembly).(immutableReferences) <> [] ->
        assembleWithDeployed' _deployName st = Fatal "Leftover immutables.").
Proof.
  split.
  - intros creationObject deployedObject H.
    destruct (@assembleWithDeployed_requires _ _ _ H)
      as (root & assembly & Ha & Hp & Hc & Hi & Hcompile).
    rewrite (@assembleWithDeployed_creation _ st root assembly Ha Hp Hc Hi Hcompile) in H.
    exists assembly. split; [exact Hcompile|].
    bind_inv_as H u Himm. bind_inv_as H creation Hcreation.
    bind_inv_as H subIndex Hsub. bind_inv_as H deployed Hdeployed.
    injection H as <- <-.
    unfold machineObject in Hcreation. bind_inv_as Hcreation source Hsource.
    injection Hcreation as <-. split; [reflexivity|].
    destruct (immutableReferences (assemble assembly));
      [reflexivity | discriminate Himm].
  - intros root assembly Ha Hp Hc Hi Hcompile Himm.
    rewrite (@assembleWithDeployed_creation _ st root assembly Ha Hp Hc Hi Hcompile).
    destruct (immutableReferences (assemble assembly));
      [contradiction | reflexivity].
Qed.

(** With several sub-assemblies of the name, the first is deployed. *)
Lemma assembleWithDeployed_first
  (st : AssemblyStack) (root : Object Block AsmAnalysisInfo)
  (assembly : Assembly) (scanner : Scanner) (n : string) (i : nat) (a : Assembly) :
  st.(m_analysisSuccessful) = true ->
  st.(m_parserResult) = Some root ->
  hasCode root -> hasAnalysisInfo root ->
  compile st = Ok assembly ->
  (assemble assembly).(immutableReferences) = [] ->
  st.(m_scanner) = Some scanner ->
  nth_error (subs assembly) i = Some a -> asm_name a = n ->
  (forall j b, j < i -> nth_error (subs assembly) j = Some b -> asm_name b <> n) ->
  let source := match scanner.(charStream) with
                | Some stream => stream.(cs_name)
                | None => ""
                end in
  assembleWithDeployed' (Some n) st
  = Ok (objectOf' source assembly, objectOf' source a).
Proof.
  intros Ha Hp Hc Hi Hcompile Himm Hscan Hnth Hname Hfirst source.
  rewrite (@assembleWithDeployed_creation _ st root assembly Ha Hp Hc Hi Hcompile), Himm.
  unfold machineObject, sourceName. rewrite Hscan. cbn [assert bind require].
  rewrite (@findSub_first n _ 0 i a Hnth Hname Hfirst).
  cbn [present assert bind Nat.add]. unfold sub. rewrite Hnth. reflexivity.
Qed.

(** *** C1 *)

(** C1.  For a job that has been analyzed and compiles to [assembly],
    whose linked bytes have no immutable reference left: with a deploy
    name that no sub-assembly bears, [assembleWithDeployed] is a fatal
    error; with a deploy name that exactly one sub-assembly bears, the
    deployed object is made of that sub-assembly, however many others
    there are; without a deploy name, the deployed object is made of the
    only sub-assembly when there is exactly one, and is empty when there
    is none or more than one.  A deployed object that is made of a
    sub-assembly holds its linked bytes, its text and its source
    mappings. *)
Theorem assembleWithDeployed_selection
  (st : AssemblyStack) (root : Object Block AsmAnalysisInfo)
  (assembly : Assembly) (scanner : Scanner) :
  st.(m_analysisSuccessful) = true ->
  st.(m_parserResult) = Some root ->
  hasCode root -> hasAnalysisInfo root ->
  compile st = Ok assembly ->
  (assemble assembly).(immutableReferences) = [] ->
  st.(m_scanner) = Some scanner ->
  let source := match scanner.(charStream) with
                | Some stream => stream.(cs_name)
                | None => ""
                end in
  let creationObject := objectOf' source assembly in
  (forall n,
      (forall a, In a (subs assembly) -> asm_name a <> n) ->
      assembleWithDeployed' (Some n) st
      = Fatal "Failed to find object to be deployed.")
  /\ (forall n i a,
        nth_error (subs assembly) i = Some a -> asm_name a = n ->
        (forall j b, nth_error (subs assembly) j = Some b -> asm_name b = n -> j = i) ->
        assembleWithDeployed' (Some n) st
        = Ok (creationObject, objectOf' source a)
        /\ (objectOf' source a).(mao_bytecode) = Some (assemble a)
        /\ (objectOf' source a).(mao_assembly) = assemblyString a
        /\ (objectOf' source a).(mao_sourceMappings)
           = Some (computeSourceMapping (items a) [(source, 0)]))
  /\ (forall a,
        subs assembly = [a] ->
        assembleWithDeployed' None st = Ok (creationObject, objectOf' source a))
  /\ (numSubs assembly <> 1 ->
      assembleWithDeployed' None st = Ok (creationObject, emptyObject)).
Proof.
  intros Ha Hp Hc Hi Hcompile Himm Hscan source creationObject.
  split; [|split; [|split]].
  - intros n Hnone.
    rewrite (@assembleWithDeployed_creation _ st root assembly Ha Hp Hc Hi Hcompile), Himm.
    unfold machineObject, sourceName. rewrite Hscan. cbn [assert bind require].
    rewrite (@findSub_none n _ 0 Hnone). reflexivity.
  - intros n i a Hnth Hname Honly.
    split; [|repeat split].
    apply (@assembleWithDeployed_first st root assembly scanner n i a
             Ha Hp Hc Hi Hcompile Himm Hscan Hnth Hname).
    intros j b Hj Hb Hbn. specialize (Honly j b Hb Hbn). lia.
  - intros a Hsubs.
    rewrite (@assembleWithDeployed_creation _ st root assembly Ha Hp Hc Hi Hcompile), Himm.
    unfold machineObject, sourceName, numSubs, sub.
    rewrite Hscan, Hsubs. reflexivity.
  - intros Hnum.
    rewrite (@assembleWithDeployed_creation _ st root assembly Ha Hp Hc Hi Hcompile), Himm.
    unfold machineObject, sourceName. rewrite Hscan. cbn [assert bind require].
    destruct (Nat.eqb_spec (numSubs assembly) 1); [contradiction | reflexivity].
Qed.

End AssembleFacts.

(** ** The properties on concrete jobs *)

Lemma Examples_analyze_reporting : reporting Examples.analyze.
Proof.
  intros d names b errors. unfold Examples.analyze.
  destruct (Nat.eqb b 0).
  - intros _ H. destruct errors; discriminate.
  - intros [H|H]; [discriminate | exact H].
Qed.

(** The jobs used below are what [parseAndAnalyze] leaves. *)
Example analyzedJob_parsed (l : Language.t) :
  parseAndAnalyze Examples.parse Examples.analyze Examples.names 0
    "input.yul" "valid" (Examples.job l)
  = Ok (true, Examples.analyzedJob l)
  /\ parseAndAnalyze Examples.parse Examples.analyze Examples.names 0
       "input.yul" "invalid" (Examples.job l)
     = Ok (false, Examples.failedJob l).
Proof. destruct l; split; reflexivity. Qed.

Lemma assembleWithDeployed_selection_witness :
  assembleWithDeployed Examples.compile Examples.link Examples.text
    Examples.sourceMapping (Some "runtime") (Examples.analyzedJob Language.Yul)
  = Ok (objectOf Examples.link Examples.text Examples.sourceMapping "input.yul"
          (Examples.compileObject Examples.analyzedTree),
        objectOf Examples.link Examples.text Examples.sourceMapping "input.yul"
          (Examples.compileObject (Examples.runtime 2 (Some 2)))).
Proof.
  refine (proj1 (proj1 (proj2
    (@assembleWithDeployed_selection _ _ _ _ _ Examples.compile Examples.link
       Examples.text Examples.sourceMapping (Examples.analyzedJob Language.Yul)
       Examples.analyzedTree (Examples.compileObject Examples.analyzedTree)
       (mkScanner (Some (mkCharStream "valid" "input.yul")))
       eq_refl eq_refl eq_refl eq_refl eq_refl eq_refl eq_refl))
    "runtime" 0 (Examples.compileObject (Examples.runtime 2 (Some 2)))
    eq_refl eq_refl _)).
  intros [|[|j]] b Hb Hn; [reflexivity | discriminate Hb | discriminate Hb].
Defined.

Lemma translate_transitions_witness :
  exists st',
    translate Examples.translateTree Language.Ewasm
      (Examples.analyzedJob Language.StrictAssembly) = Ok st'
    /\ st'.(m_language) = Language.Ewasm
    /\ st'.(m_parserResult)
       = Some (Examples.translateTree (strictAssemblyForEVMObjects tt)
                 Examples.analyzedTree)
    /\ st'.(m_analysisSuccessful) = true
    /\ st'.(m_errors) = []
    /\ st'.(m_scanner) = Examples.scanned "valid".
Proof.
  exact (proj2 (proj2 (proj2
    (@translate_transitions _ _ string _ Examples.translateTree Language.Ewasm
       (Examples.analyzedJob Language.StrictAssembly))) eq_refl eq_refl)
    Examples.analyzedTree eq_refl eq_refl eq_refl).
Defined.

(** A job in strict assembly whose analysis has failed: the translation to
    Ewasm is refused for that. *)
Lemma translate_requires_analysis :
  parseAndAnalyze Examples.parse Examples.analyze Examples.names 0
    "input.yul" "invalid" (Examples.job Language.StrictAssembly)
  = Ok (false, Examples.failedJob Language.StrictAssembly)
  /\ (Examples.failedJob Language.StrictAssembly).(m_language)
     = Language.StrictAssembly
  /\ translate Examples.translateTree Language.Ewasm
       (Examples.failedJob Language.StrictAssembly)
     = Fatal "Analysis was not successful.".
Proof. repeat split. Qed.

Lemma parseAndAnalyze_outcome_witness :
  (exists st',
      parseAndAnalyze Examples.parse Examples.analyze Examples.names 0
        "input.yul" "" (Examples.job Language.Yul) = Ok (false, st')
      /\ st'.(m_errors) = ["expected an object"] /\ st'.(m_errors) <> [])
  /\ (Examples.failedJob Language.Yul).(m_errors) <> [].
Proof.
  split.
  - apply (proj1 (@parseAndAnalyze_outcome _ _ _ _ Examples.parse Examples.analyze
                    Examples.names 0 "input.yul" "" (Examples.job Language.Yul)
                    None ["expected an object"] eq_refl)).
    discriminate.
  - apply (proj2 (proj2 (proj2 (proj2
      (@parseAndAnalyze_outcome _ _ _ _ Examples.parse Examples.analyze
         Examples.names 0 "input.yul" "invalid" (Examples.job Language.Yul)
         (Some (Examples.tree 0 None None)) [] eq_refl))))
      Examples_analyze_reporting (Examples.failedJob Language.Yul) eq_refl).
Defined.

Lemma analyzeParsed_metadata_witness :
  exists root',
    (Examples.failedJob Language.Yul).(m_parserResult) = Some root'
    /\ Forall (@hasAnalysisInfo _ _) (objects root').
Proof.
  exact (proj2
    (@analyzeParsed_metadata _ _ _ _ Examples.parse Examples.analyze
       Examples.names 0 "input.yul" "invalid" (Examples.job Language.Yul)
       (Some (Examples.tree 0 None None)) [] eq_refl)
    false (Examples.failedJob Language.Yul) eq_refl eq_refl).
Defined.

Lemma assembleWithDeployed_no_immutables_witness :
  (exists assembly,
      compileEVM Examples.compile (Examples.analyzedJob Language.Yul) true
      = Ok assembly
      /\ Some (Examples.link (Examples.compileObject Examples.analyzedTree))
         = Some (Examples.link assembly)
      /\ (Examples.link assembly).(immutableReferences) = [])
  /\ assembleWithDeployed Examples.compile Examples.link Examples.text
       Examples.sourceMapping None Examples.leftoverJob
     = Fatal "Leftover immutables.".
Proof.
  split.
  - exact (proj1
      (@assembleWithDeployed_no_immutables _ _ _ _ _ Examples.compile Examples.link
         Examples.text Examples.sourceMapping None (Examples.analyzedJob Language.Yul))
      (objectOf Examples.link Examples.text Examples.sourceMapping "input.yul"
         (Examples.compileObject Examples.analyzedTree))
      (objectOf Examples.link Examples.text Examples.sourceMapping "input.yul"
         (Examples.compileObject (Examples.runtime 2 (Some 2))))
      eq_refl).
  - refine (proj2
      (@assembleWithDeployed_no_immutables _ _ _ _ _ Examples.compile Examples.link
         Examples.text Examples.sourceMapping None Examples.leftoverJob)
      _ _ eq_refl eq_refl eq_refl eq_refl eq_refl _).
    discriminate.
Defined.

Lemma optimize_cost_model_and_estimate_witness :
  exists nested call,
    [mkSuiteCall (EVMDialectTyped_instance tt)
       (Some (mkGasMeter (EVMDialectTyped_instance tt) false 200))
       (Examples.runtime 2 (Some 2)) true "dhfoDgvulfnTUtnIf" (Some 200);
     mkSuiteCall (EVMDialectTyped_instance tt)
       (Some (mkGasMeter (EVMDialectTyped_instance tt) true 200))
       Examples.analyzedTree true "dhfoDgvulfnTUtnIf" None]
    = (nested ++ [call])%list
    /\ Forall (suiteCallFor Language.Yul tt Examples.settings false) nested
    /\ suiteCallFor Language.Yul tt Examples.settings true call
    /\ 2 = List.length (objects Examples.analyzedTree).
Proof.
  exact (proj1 (proj2 (proj2 (proj2 (proj2
    (@optimize_cost_model_and_estimate _ _ _ Examples.suite Language.Yul tt
       Examples.settings string Examples.analyze Examples.names 0)))))
    Examples.analyzedTree true Examples.analyzedTree _ eq_refl).
Defined.

(** In Ewasm, where no cost model is built, the suite is still handed the
    expected executions per deployment for the nested object. *)
Lemma optimize_estimate_for_Ewasm :
  optimizeObject Examples.suite Language.Ewasm tt Examples.settings
    Examples.analyzedTree true
  = Ok (Examples.analyzedTree,
        [mkSuiteCall (WasmDialect_instance unit) None
           (Examples.runtime 2 (Some 2)) true "dhfoDgvulfnTUtnIf" (Some 200);
         mkSuiteCall (WasmDialect_instance unit) None
           Examples.analyzedTree true "dhfoDgvulfnTUtnIf" None])
  /\ exists st',
      optimize Examples.analyze Examples.names 0 Examples.suite
        (Examples.analyzedJob Language.Ewasm)
      = Ok (st',
            [mkSuiteCall (WasmDialect_instance unit) None
               (Examples.runtime 2 (Some 2)) true "dhfoDgvulfnTUtnIf" (Some 200);
             mkSuiteCall (WasmDialect_instance unit) None
               Examples.analyzedTree true "dhfoDgvulfnTUtnIf" None]).
Proof. split; [reflexivity | eexists; reflexivity]. Qed.

(* ===================================================================== *)
(** * Further properties *)
(* ===================================================================== *)

(** ** The collector: what stays stored *)

Module CollectorInvariants.
Import Collector.

Lemma lookup_assign_same (k v : string) (m : StringMap.t) :
  StringMap.lookup k (StringMap.assign k v m) = Some v.
Proof.
  unfold StringMap.lookup. induction m as [|[k' v'] m IH]; simpl.
  - now rewrite String.eqb_refl.
  - destruct (String.compare k k') eqn:E; simpl;
      try (now rewrite String.eqb_refl).
    destruct (String.eqb_spec k' k) as [->|_]; [|exact IH].
    rewrite StrFacts.compare_refl in E. discriminate.
Qed.

Lemma lookup_assign_other (k k0 v : string) (m : StringMap.t) :
  k0 <> k ->
  StringMap.lookup k0 (StringMap.assign k v m) = StringMap.lookup k0 m.
Proof.
  intros Hne. unfold StringMap.lookup.
  induction m as [|[k' v'] m IH]; simpl.
  - destruct (String.eqb_spec k k0); [congruence | reflexivity].
  - destruct (String.compare k k') eqn:E; simpl.
    + apply StrFacts.compare_Eq in E. subst k'.
      destruct (String.eqb_spec k k0); [congruence | reflexivity].
    + destruct (String.eqb_spec k k0); [congruence | reflexivity].
    + destruct (String.eqb k' k0); [reflexivity | exact IH].
Qed.

Lemma lookup_absent_count (k : string) (m : StringMap.t) :
  StringMap.count k m = 0 -> StringMap.lookup k m = None.
Proof.
  intros H. destruct (StringMap.lookup k m) eqn:E; [|reflexivity].
  exfalso. apply (proj2 (StringMapFacts.lookup_count k m)); congruence.
Qed.

(** In an ordered map an entry is what a lookup of its key finds. *)
Lemma lookup_In (k v : string) (m : StringMap.t) :
  StringMap.ordered m -> In (k, v) m -> StringMap.lookup k m = Some v.
Proof.
  induction m as [|[k' v'] m IH]; intros Hord Hin; [destruct Hin|].
  apply StringMapFacts.ordered_inv in Hord. destruct Hord as [Hord Hall].
  destruct Hin as [E|Hin].
  - injection E as -> ->. apply StringMapFacts.lookup_head.
  - unfold StringMap.lookup. simpl.
    destruct (String.eqb_spec k' k) as [->|_]; [|exact (IH Hord Hin)].
    exfalso. rewrite Forall_forall in Hall.
    apply (@StrFacts.lt_irrefl k). apply Hall.
    change k with (fst (k, v)). now apply in_map.
Qed.

Lemma prefix_append (a b : string) : prefix a (a ++ b) = true.
Proof.
  induction a as [|x a IH]; simpl; [destruct b; reflexivity|].
  destruct (ascii_dec x x); [exact IH | contradiction].
Qed.

Lemma prefix_length (a b : string) :
  prefix a b = true -> String.length a <= String.length b.
Proof.
  revert a. induction b as [|y b IH]; intros [|x a]; simpl; intros H;
    try lia; try discriminate.
  destruct (ascii_dec x y); [|discriminate]. specialize (IH a H). lia.
Qed.

Lemma index_prefix (needle s : string) :
  prefix needle s = true -> index 0 needle s = Some 0.
Proof.
  destruct s as [|c s]; intros H.
  - destruct needle; [reflexivity | discriminate H].
  - cbn [index]. now rewrite H.
Qed.

Lemma contains_within (needle before after : string) :
  contains needle (before ++ needle ++ after) = true.
Proof.
  unfold contains, Str.find. induction before as [|c before IH].
  - cbn [append]. now rewrite (index_prefix _ _ (prefix_append needle after)).
  - cbn [append index].
    destruct (prefix needle (String c (before ++ needle ++ after)));
      [reflexivity|].
    destruct (index 0 needle (before ++ needle ++ after));
      [reflexivity | discriminate IH].
Qed.

Lemma contains_length (needle s : string) :
  contains needle s = true -> String.length needle <= String.length s.
Proof.
  unfold contains, Str.find. induction s as [|c s IH].
  - destruct needle; simpl; [lia | discriminate].
  - cbn [index]. destruct (prefix needle (String c s)) eqn:P.
    + intros _. apply prefix_length in P. exact P.
    + destruct (index 0 needle s); [|discriminate].
      intros _. specialize (IH eq_refl). simpl. lia.
Qed.

(** A text that declares a function is not the placeholder. *)
Lemma declares_not_STUB (name code : string) : declares name code -> code <> STUB.
Proof.
  intros H ->. apply contains_length in H.
  rewrite !StrFacts.length_append in H. simpl in H. lia.
Qed.

Lemma render_declares (name args rets body : string) :
  declares name (render name args rets body).
Proof.
  unfold declares, render.
  set (tail := args ++ ")" ++ (if Str.empty rets then "" else " -> " ++ rets)
               ++ " {" ++ Str.nl ++ indent 4 ++ body ++ Str.nl ++ indent 3 ++ "}"
               ++ Str.nl ++ indent 2).
  replace (Str.nl ++ indent 3 ++ "function " ++ name ++ "(" ++ tail)
    with ((Str.nl ++ indent 3) ++ ("function " ++ name ++ "(") ++ tail).
  - apply contains_within.
  - rewrite !StrFacts.append_assoc. reflexivity.
Qed.

Lemma render_not_STUB (name args rets body : string) :
  render name args rets body <> STUB.
Proof. discriminate. Qed.

Lemma proceeds_refl (st : state) : proceeds st st.
Proof.
  split; [|split].
  - intros name code H _. exact H.
  - intros name. tauto.
  - auto.
Qed.

Lemma proceeds_trans (a b c : state) : proceeds a b -> proceeds b c -> proceeds a c.
Proof.
  intros (K1 & S1 & N1) (K2 & S2 & N2). split; [|split].
  - intros name code H Hc. apply K2; [apply K1|]; assumption.
  - intros name. rewrite (S1 name). apply S2.
  - auto.
Qed.

(** Either overload, once the creator has returned a text that declares
    the function. *)
Lemma request_proceeds (name code : string) (st st2 : state) :
  StringMap.lookup name st.(m_requestedFunctions) = None ->
  proceeds (noteCall name (setFunction name STUB st)) st2 ->
  declares name code ->
  proceeds st (setFunction name code st2).
Proof.
  intros Habs (K & S & N) Hdecl.
  assert (Hother : forall n, n <> name ->
            StringMap.lookup n
              (noteCall name (setFunction name STUB st)).(m_requestedFunctions)
            = StringMap.lookup n st.(m_requestedFunctions)).
  { intros n Hn. simpl. now apply lookup_assign_other. }
  assert (Hother' : forall n, n <> name ->
            StringMap.lookup n (setFunction name code st2).(m_requestedFunctions)
            = StringMap.lookup n st2.(m_requestedFunctions)).
  { intros n Hn. simpl. now apply lookup_assign_other. }
  split; [|split].
  - intros n c Hn Hc.
    assert (Hne : n <> name) by (intros ->; congruence).
    rewrite (Hother' n Hne). apply K; [|exact Hc]. now rewrite (Hother n Hne).
  - intros n. destruct (string_dec n name) as [->|Hne].
    + rewrite Habs. simpl. rewrite lookup_assign_same. split; intros H.
      * discriminate H.
      * injection H as H. exfalso. exact (declares_not_STUB Hdecl H).
    + rewrite (Hother' n Hne), <- (S n), (Hother n Hne). tauto.
  - intros Hnamed n c Hn. destruct (string_dec n name) as [->|Hne].
    + simpl in Hn. rewrite lookup_assign_same in Hn. injection Hn as <-.
      right. exact Hdecl.
    + rewrite (Hother' n Hne) in Hn. revert n c Hn Hne.
      assert (Hn2 : named st2).
      { apply N. intros n c Hn. destruct (string_dec n name) as [->|Hne].
        - simpl in Hn. rewrite lookup_assign_same in Hn. injection Hn as <-.
          left. reflexivity.
        - rewrite (Hother n Hne) in Hn. exact (Hnamed n c Hn). }
      intros n c Hn _. exact (Hn2 n c Hn).
Qed.

Lemma createFunctionBy_proceeds
  (call : state -> result (string * state)) (name : string) :
  proceeding call -> proceeding (createFunctionBy call name).
Proof.
  intros Hcall st r st'. unfold createFunctionBy.
  destruct (Nat.eqb_spec (StringMap.count name st.(m_requestedFunctions)) 0)
    as [Habs|Hpres].
  - intros H. bind_inv_as H p Hrun. destruct p as [fun_ st2].
    bind_inv_as H u1 Hfilled. bind_inv_as H u2 Hnamed. injection H as _ <-.
    apply request_proceeds;
      [now apply lookup_absent_count | exact (Hcall _ _ _ Hrun) | exact Hnamed].
  - intros H. injection H as _ <-. apply proceeds_refl.
Qed.

Lemma createFunctionWithBy_proceeds
  (call : state -> result (parts * state)) (name : string) :
  proceeding call -> proceeding (createFunctionWithBy call name).
Proof.
  intros Hcall st r st'. unfold createFunctionWithBy.
  intros H. bind_inv_as H u0 Hname.
  destruct (Nat.eqb_spec (StringMap.count name st.(m_requestedFunctions)) 0)
    as [Habs|Hpres].
  - bind_inv_as H p Hrun. destruct p as [[[arguments returnParameters] body] st2].
    bind_inv_as H u1 Hfilled. injection H as _ <-.
    apply request_proceeds;
      [now apply lookup_absent_count | exact (Hcall _ _ _ Hrun)
      | apply render_declares].
  - injection H as _ <-. apply proceeds_refl.
Qed.

Lemma run_proceeds (R : Type) (c : creator R) : proceeding (run c).
Proof.
  induction c as [R r|R msg|R name g IHg next IHnext|R name g IHg next IHnext];
    intros st r' st'; simpl; intros H.
  - injection H as _ <-. apply proceeds_refl.
  - discriminate.
  - bind_inv_as H p Hreq. destruct p as [n st1].
    eapply proceeds_trans; [|exact (IHnext _ _ _ H)].
    eapply createFunctionBy_proceeds; [exact IHg | exact Hreq].
  - bind_inv_as H p Hreq. destruct p as [n st1].
    eapply proceeds_trans; [|exact (IHnext _ _ _ H)].
    eapply createFunctionWithBy_proceeds; [exact IHg | exact Hreq].
Qed.

(** Between calls nothing is in progress and every entry declares its
    function. *)
Lemma reachable_finished (st : state) :
  reachable st ->
  named st
  /\ forall name, StringMap.lookup name st.(m_requestedFunctions) <> Some STUB.
Proof.
  induction 1 as [|st name g r st' _ [IHn IHs] H|st name g r st' _ [IHn IHs] H
                 |st c r st' _ _ H].
  - split; [intros n c H; discriminate H | intros n H; discriminate H].
  - destruct (@createFunctionBy_proceeds _ name (@run_proceeds _ g) _ _ _ H)
      as (_ & S & N).
    split; [auto | intros n Hn; apply (IHs n), S, Hn].
  - destruct (@createFunctionWithBy_proceeds _ name (@run_proceeds _ g) _ _ _ H)
      as (_ & S & N).
    split; [auto | intros n Hn; apply (IHs n), S, Hn].
  - unfold requestedFunctions in H. bind_inv_as H out Hout. injection H as _ <-.
    split; [intros n c' Hn; discriminate Hn | intros n Hn; discriminate Hn].
Qed.

Lemma collect_in_progress (c : string) (m : StringMap.t) (acc : string) :
  Exists (fun e : string * string => snd e = STUB) m -> collect c m acc = Fatal "".
Proof.
  intros H. revert acc.
  induction H as [[k v] m Hv|[k v] m _ IH]; intros acc; simpl in *.
  - subst v. reflexivity.
  - destruct (String.eqb v STUB); [reflexivity|]. cbn [negb assert bind].
    unfold withSourceLocation.
    destruct (negb (contains "/// @src" v) && negb (Str.empty c)).
    + destruct (Regex.search v); [apply IH | reflexivity].
    + apply IH.
Qed.

End CollectorInvariants.

(** X1.  A definition that has been generated stays stored as it is:
    no later request of either form, for whatever name and with whatever
    generator, nested requests included, replaces or removes it. *)
Theorem createFunction_keeps_definitions
  (name code : string) (st : Collector.state)
  (request : Collector.state -> result (string * Collector.state))
  (r : string) (st' : Collector.state) :
  StringMap.lookup name st.(Collector.m_requestedFunctions) = Some code ->
  code <> Collector.STUB ->
  (exists n g, request = Collector.createFunction n g)
  \/ (exists n g, request = Collector.createFunctionWith n g) ->
  request st = Ok (r, st') ->
  StringMap.lookup name st'.(Collector.m_requestedFunctions) = Some code.
Proof.
  intros Hstored Hcode Hform Hcall.
  assert (Hp : Collector.proceeds st st').
  { destruct Hform as [(n & g & ->)|(n & g & ->)].
    - eapply CollectorInvariants.createFunctionBy_proceeds;
        [apply CollectorInvariants.run_proceeds | exact Hcall].
    - eapply CollectorInvariants.createFunctionWithBy_proceeds;
        [apply CollectorInvariants.run_proceeds | exact Hcall]. }
  destruct Hp as (K & _). exact (K name code Hstored Hcode).
Qed.

Lemma createFunction_keeps_definitions_witness :
  StringMap.lookup "f"
    (Collector.mkState [("f", Examples.fDefinition); ("g", "function g() {}")]
       ["g"; "f"]).(Collector.m_requestedFunctions)
  = Some Examples.fDefinition.
Proof.
  apply (@createFunction_keeps_definitions "f" Examples.fDefinition Examples.afterF
           (Collector.createFunction "g"
              (Collector.Request "f" (Collector.Return "function f() { leave }")
                 (Collector.Return "function g() {}")))
           "g").
  - reflexivity.
  - discriminate.
  - left. eexists _, _. reflexivity.
  - reflexivity.
Defined.

(** X2.  Between calls no entry is a placeholder, so the placeholder
    assertion of [requestedFunctions] cannot fail: with an empty comment
    the call returns the stored definitions one after the other, and with
    any comment it returns whenever every stored definition either
    contains [/// @src] or has a match of the function pattern. *)
Theorem requestedFunctions_returns (st : Collector.state) :
  Collector.reachable st ->
  Collector.requestedFunctions "" st
  = Ok (Collector.concatenation (map snd st.(Collector.m_requestedFunctions)),
        Collector.mkState StringMap.empty st.(Collector.called))
  /\ (forall c,
        Forall (fun e : string * string =>
                  Collector.contains "/// @src" (snd e) = true
                  \/ Regex.search (snd e) <> None)
               st.(Collector.m_requestedFunctions) ->
        exists out,
          Collector.requestedFunctions c st
          = Ok (out, Collector.mkState StringMap.empty st.(Collector.called))).
Proof.
  intros Hreach.
  destruct (CollectorFacts.reachable_invariant Hreach) as [Hord _].
  destruct (CollectorInvariants.reachable_finished Hreach) as [_ Hstub].
  assert (Hdone : Forall (fun e : string * string => snd e <> Collector.STUB)
                    st.(Collector.m_requestedFunctions)).
  { apply Forall_forall. intros [k v] Hin Hv. simpl in Hv. subst v.
    exact (Hstub k (@CollectorInvariants.lookup_In _ _ _ Hord Hin)). }
  unfold Collector.requestedFunctions. clear Hreach Hord Hstub.
  split.
  - assert (H : Collector.collect "" st.(Collector.m_requestedFunctions) ""
                = Ok (Collector.concatenation
                        (map snd st.(Collector.m_requestedFunctions)))).
    { apply CollectorFacts.collect_texts.
      exists (map snd st.(Collector.m_requestedFunctions)). split; [|reflexivity].
      induction Hdone as [|e m He _ IH]; simpl; constructor; [|exact IH].
      split; [exact He|].
      apply CollectorFacts.withSourceLocation_unchanged. right. reflexivity. }
    rewrite H. reflexivity.
  - intros c Hall.
    assert (H : exists texts,
               Forall2 (fun e t => snd e <> Collector.STUB
                                   /\ Collector.withSourceLocation c (snd e) = Ok t)
                       st.(Collector.m_requestedFunctions) texts).
    { induction Hdone as [|e m He _ IH].
      - exists []. constructor.
      - inversion Hall as [|? ? Hhead Htail]; subst.
        destruct (IH Htail) as [texts HF].
        assert (Ht : exists t, Collector.withSourceLocation c (snd e) = Ok t).
        { unfold Collector.withSourceLocation.
          destruct (negb (Collector.contains "/// @src" (snd e))
                    && negb (Str.empty c)) eqn:Hcond; [|eauto].
          destruct Hhead as [Hsrc|Hpos].
          - rewrite Hsrc in Hcond. discriminate Hcond.
          - destruct (Regex.search (snd e)); [eauto | contradiction]. }
        destruct Ht as [t Ht]. exists (t :: texts). constructor; auto. }
    destruct H as [texts HF].
    exists (Collector.concatenation texts).
    assert (Hc : Collector.collect c st.(Collector.m_requestedFunctions) ""
                 = Ok (Collector.concatenation texts)).
    { apply CollectorFacts.collect_texts. exists texts. split; [exact HF | reflexivity]. }
    rewrite Hc. reflexivity.
Qed.

Lemma requestedFunctions_returns_witness :
  Collector.requestedFunctions "" Examples.afterZA
  = Ok (Collector.concatenation
          (map snd Examples.afterZA.(Collector.m_requestedFunctions)),
        Collector.mkState StringMap.empty Examples.afterZA.(Collector.called)).
Proof.
  exact (proj1 (@requestedFunctions_returns Examples.afterZA afterZA_reachable)).
Defined.

(** X3.  Between calls every stored definition declares the function it
    is stored under: its text contains [function <name>(], whichever form
    of [createFunction] stored it. *)
Theorem reachable_declares (st : Collector.state) (name code : string) :
  Collector.reachable st ->
  In (name, code) st.(Collector.m_requestedFunctions) ->
  Collector.declares name code /\ code <> Collector.STUB.
Proof.
  intros Hreach Hin.
  destruct (CollectorFacts.reachable_invariant Hreach) as [Hord _].
  destruct (CollectorInvariants.reachable_finished Hreach) as [Hnamed Hstub].
  pose proof (@CollectorInvariants.lookup_In _ _ _ Hord Hin) as Hl.
  destruct (Hnamed name code Hl) as [->|Hd].
  - exfalso. exact (Hstub name Hl).
  - split; [exact Hd | exact (CollectorInvariants.declares_not_STUB Hd)].
Qed.

Lemma reachable_declares_witness :
  Collector.declares "z_helper" Examples.zDefinition
  /\ Examples.zDefinition <> Collector.STUB.
Proof.
  apply (@reachable_declares Examples.afterZA "z_helper" Examples.zDefinition
           afterZA_reachable).
  right. left. reflexivity.
Defined.

(** X4.  While a function is being generated its entry is the
    placeholder, and [requestedFunctions] called then is a fatal error,
    whatever the comment and whatever else is stored. *)
Theorem requestedFunctions_in_progress
  (c name : string) (st : Collector.state) :
  In (name, Collector.STUB) st.(Collector.m_requestedFunctions) ->
  Collector.requestedFunctions c st = Fatal "".
Proof.
  intros Hin. unfold Collector.requestedFunctions.
  rewrite CollectorInvariants.collect_in_progress; [reflexivity|].
  apply Exists_exists. exists (name, Collector.STUB). split; [exact Hin | reflexivity].
Qed.

Lemma requestedFunctions_in_progress_witness :
  Collector.requestedFunctions Examples.srcComment Examples.generatingF = Fatal "".
Proof.
  apply (@requestedFunctions_in_progress Examples.srcComment "f" Examples.generatingF).
  left. reflexivity.
Defined.

(** ** The source location comment *)

Module RegexFacts.

Lemma drop_0 (s : string) : Str.drop 0 s = s.
Proof. unfold Str.drop. rewrite Nat.sub_0_r. apply StrFacts.substring_all. Qed.

Lemma drop_S (p : nat) (c : ascii) (s : string) :
  Str.drop (S p) (String c s) = Str.drop p s.
Proof. reflexivity. Qed.

Lemma take_S (p : nat) (c : ascii) (s : string) :
  Str.take (S p) (String c s) = String c (Str.take p s).
Proof. reflexivity. Qed.

Lemma take_drop (p : nat) (s : string) :
  p <= String.length s -> Str.take p s ++ Str.drop p s = s.
Proof.
  revert p. induction s as [|c s IH]; intros [|p] Hp; simpl in Hp; try lia.
  - reflexivity.
  - rewrite drop_0. reflexivity.
  - rewrite take_S, drop_S. simpl. f_equal. apply IH. lia.
Qed.

Lemma Regex_search_unfold (c : ascii) (s : string) :
  Regex.search (String c s)
  = if Regex.matchHere (String c s) then Some 0
    else option_map S (Regex.search s).
Proof. reflexivity. Qed.

Lemma search_here (s : string) : Regex.matchHere s = true -> Regex.search s = Some 0.
Proof.
  intros H. destruct s as [|c s]; [discriminate H|].
  now rewrite Regex_search_unfold, H.
Qed.

Lemma search_next (c : ascii) (s : string) :
  Regex.matchHere (String c s) = false ->
  Regex.search (String c s) = option_map S (Regex.search s).
Proof. intros H. now rewrite Regex_search_unfold, H. Qed.

Lemma matchHere_first (c : ascii) (s : string) :
  Ascii.eqb "f" c = false -> Regex.matchHere (String c s) = false.
Proof. intros H. unfold Regex.matchHere. cbn [Regex.lit]. now rewrite H. Qed.

(** The position found is that of a match, within the text. *)
Lemma search_match (s : string) (p : nat) :
  Regex.search s = Some p ->
  p <= String.length s /\ Regex.matchHere (Str.drop p s) = true.
Proof.
  revert p. induction s as [|c s IH]; intros p H.
  - discriminate H.
  - rewrite (Regex_search_unfold c s) in H.
    destruct (Regex.matchHere (String c s)) eqn:M.
    + injection H as <-. split; [simpl; lia | now rewrite drop_0].
    + destruct (Regex.search s) as [q|]; [|discriminate].
      injection H as <-. destruct (IH q eq_refl) as [Hq Hm].
      split; [simpl; lia | now rewrite drop_S].
Qed.

Lemma lit_append (p s : string) : Regex.lit p (p ++ s) = Some s.
Proof.
  induction p as [|c p IH]; simpl; [destruct s; reflexivity|].
  now rewrite Ascii.eqb_refl.
Qed.

Lemma skip_append (cls : ascii -> bool) (a b : string) :
  Regex.skip cls a = "" -> Regex.skip cls (a ++ b) = Regex.skip cls b.
Proof.
  induction a as [|c a IH]; simpl; [reflexivity|].
  destruct (cls c); [exact IH | discriminate].
Qed.

Lemma identChar_not_blank (c : ascii) :
  Regex.identChar c = true -> Regex.blank c = false.
Proof.
  intros H. unfold Regex.blank.
  destruct (Ascii.eqb_spec c " ") as [->|_]; [discriminate H|].
  destruct (Ascii.eqb_spec c Str.tab) as [->|_]; [discriminate H | reflexivity].
Qed.

(** A header with an identifier as name and no closing parenthesis among
    its parameters matches the pattern. *)
Lemma matchHere_header (name args tail : string) :
  Collector.identifier name ->
  Regex.skip Regex.notClose args = "" ->
  Regex.matchHere ("function " ++ name ++ "(" ++ args ++ ")" ++ tail) = true.
Proof.
  intros [Hne Hid] Hargs. unfold Regex.matchHere.
  change ("function " ++ name ++ "(" ++ args ++ ")" ++ tail)
    with ("function" ++ String " " (name ++ "(" ++ args ++ ")" ++ tail)).
  rewrite lit_append.
  destruct name as [|c name]; [contradiction|].
  cbn [Regex.skip] in Hid.
  destruct (Regex.identChar c) eqn:Hc; [|discriminate Hid].
  cbn [Regex.plus Regex.skip append].
  change (Regex.blank " ") with true. cbv iota.
  rewrite (identChar_not_blank _ Hc). cbv iota. cbn [Regex.plus]. rewrite Hc.
  rewrite (skip_append _ _ _ Hid).
  cbn [Regex.skip]. change (Regex.identChar "(") with false. cbv iota.
  cbn [Regex.lit]. change (Ascii.eqb "(" "(") with true. cbv iota.
  rewrite (skip_append _ _ _ Hargs).
  cbn [Regex.skip]. change (Regex.notClose ")") with false. cbv iota.
  reflexivity.
Qed.

End RegexFacts.

(** X5.  The source location comment is only ever inserted: what
    [requestedFunctions] makes of a definition is the definition itself,
    or the definition with the comment, a line break and some tabs put in
    directly before a match of the function pattern; no character of the
    definition is dropped or changed. *)
Theorem withSourceLocation_inserts (c code out : string) :
  Collector.withSourceLocation c code = Ok out ->
  out = code
  \/ exists before header tabs,
      code = before ++ header
      /\ Regex.matchHere header = true
      /\ out = before ++ c ++ Str.nl ++ Str.fill tabs Str.tab ++ header
      /\ c <> ""
      /\ Collector.contains "/// @src" code = false.
Proof.
  unfold Collector.withSourceLocation.
  destruct (Collector.contains "/// @src" code) eqn:Hsrc;
    [intros H; injection H as <-; left; reflexivity|].
  destruct c as [|c0 c]; [intros H; injection H as <-; left; reflexivity|].
  cbn [negb andb Str.empty].
  destruct (Regex.search code) as [p|] eqn:Hp; [|discriminate].
  intros H. injection H as <-. right.
  destruct (RegexFacts.search_match _ Hp) as [Hlen Hmatch].
  exists (Str.take p code), (Str.drop p code). eexists.
  split; [symmetry; apply RegexFacts.take_drop, Hlen|].
  split; [exact Hmatch|]. split; [reflexivity|]. split; [discriminate | reflexivity].
Qed.

Lemma withSourceLocation_inserts_witness :
  Collector.commentAbove Examples.srcComment Str.nl 4 Examples.fooRest
  = Examples.fooDefinition
  \/ exists before header tabs,
      Examples.fooDefinition = before ++ header
      /\ Regex.matchHere header = true
      /\ Collector.commentAbove Examples.srcComment Str.nl 4 Examples.fooRest
         = before ++ Examples.srcComment ++ Str.nl ++ Str.fill tabs Str.tab ++ header
      /\ Examples.srcComment <> ""
      /\ Collector.contains "/// @src" Examples.fooDefinition = false.
Proof.
  apply (@withSourceLocation_inserts Examples.srcComment Examples.fooDefinition).
  reflexivity.
Defined.

(** X6.  The tabs put before the header count the characters that stand
    before it on its line, whatever they are: after a line break and a
    run [pad] without line break the header gets as many tabs as [pad] has
    characters, while the comment follows [pad] itself; when no line break
    comes before the header, it gets no tab at all. *)
Theorem withSourceLocation_indentation (c pad rest : string) :
  c <> "" ->
  Str.find_last_of "010" pad = None ->
  (forall before,
      Collector.contains "/// @src" (before ++ Str.nl ++ pad ++ rest) = false ->
      Regex.search (before ++ Str.nl ++ pad ++ rest)
      = Some (String.length before + 1 + String.length pad) ->
      Collector.withSourceLocation c (before ++ Str.nl ++ pad ++ rest)
      = Ok (before ++ Str.nl ++ pad ++ c ++ Str.nl
            ++ Str.fill (String.length pad) Str.tab ++ rest))
  /\ (Collector.contains "/// @src" (pad ++ rest) = false ->
      Regex.search (pad ++ rest) = Some (String.length pad) ->
      Collector.withSourceLocation c (pad ++ rest)
      = Ok (pad ++ c ++ Str.nl ++ rest)).
Proof.
  intros Hc Hpad.
  destruct c as [|c0 c]; [contradiction|]. split.
  - intros before Hsrc Hpos. unfold Collector.withSourceLocation.
    rewrite Hsrc, Hpos. cbn [negb andb Str.empty].
    assert (Hlen : String.length ((before ++ Str.nl) ++ pad)
                   = String.length before + 1 + String.length pad).
    { rewrite !StrFacts.length_append. reflexivity. }
    replace (before ++ Str.nl ++ pad ++ rest)
      with (((before ++ Str.nl) ++ pad) ++ rest)
      by (now rewrite !StrFacts.append_assoc).
    rewrite <- Hlen.
    rewrite StrFacts.take_append, StrFacts.drop_append.
    rewrite (@StrFacts.find_last_of_append_no _ _ _ Hpad).
    unfold Str.nl at 1. rewrite StrFacts.find_last_of_end. rewrite Hlen.
    replace (String.length before + 1 + String.length pad
             - String.length before - 1) with (String.length pad) by lia.
    f_equal. now rewrite !StrFacts.append_assoc.
  - intros Hsrc Hpos. unfold Collector.withSourceLocation.
    rewrite Hsrc, Hpos. cbn [negb andb Str.empty].
    rewrite StrFacts.take_append, StrFacts.drop_append, Hpad. reflexivity.
Qed.

Lemma withSourceLocation_indentation_witness :
  Collector.withSourceLocation Examples.srcComment Examples.blanksDefinition
  = Ok ("{" ++ Str.nl ++ "    " ++ Examples.srcComment ++ Str.nl
        ++ Str.fill 4 Str.tab ++ "function f() {}").
Proof.
  refine (proj1 (@withSourceLocation_indentation Examples.srcComment "    "
                   "function f() {}" _ eq_refl) "{" eq_refl eq_refl).
  discriminate.
Defined.

(** X7.  A definition made by the second form of [createFunction] for an
    identifier, with no closing parenthesis among its argument names and
    no [/// @src] in it, always takes the comment: requesting it into an
    empty collector and draining with a comment returns the definition
    with the comment on a line of its own above the header, both after
    the three tabs of the template. *)
Theorem createFunctionWith_sourceLocation
  (name : string) (arguments returnParameters : list string) (body c : string) :
  Collector.identifier name ->
  Regex.skip Regex.notClose (Collector.joinHumanReadable arguments) = "" ->
  body <> "" -> c <> "" ->
  Collector.contains "/// @src"
    (Collector.render name (Collector.joinHumanReadable arguments)
       (Collector.joinHumanReadable returnParameters) body) = false ->
  exists rest,
    Collector.render name (Collector.joinHumanReadable arguments)
      (Collector.joinHumanReadable returnParameters) body
    = Collector.headerLine Str.nl 3 rest
    /\ Regex.matchHere rest = true
    /\ (do (_, st) <- Collector.createFunctionWith name
                        (Collector.Return (arguments, returnParameters, body))
                        Collector.initial;
        Collector.requestedFunctions c st)
       = Ok (Collector.commentAbove c Str.nl 3 rest,
             Collector.mkState StringMap.empty [name]).
Proof.
  intros Hid Hargs Hbody Hc Hsrc.
  remember (Collector.render name (Collector.joinHumanReadable arguments)
       (Collector.joinHumanReadable returnParameters) body) as text eqn:Etext.
  remember ("function " ++ name ++ "(" ++ Collector.joinHumanReadable arguments
            ++ ")"
            ++ (if Str.empty (Collector.joinHumanReadable returnParameters)
                then "" else " -> " ++ Collector.joinHumanReadable returnParameters)
            ++ " {" ++ Str.nl ++ Collector.indent 4 ++ body ++ Str.nl
            ++ Collector.indent 3 ++ "}" ++ Str.nl ++ Collector.indent 2)
    as header eqn:Eheader.
  assert (Hmatch : Regex.matchHere header = true)
    by (subst header; now apply RegexFacts.matchHere_header).
  assert (Hrender : text = Collector.headerLine ("" ++ Str.nl) 3 header)
    by (subst; reflexivity).
  assert (HnotStub : text <> Collector.STUB) by (subst text; discriminate).
  exists header. split; [exact Hrender|]. split; [exact Hmatch|].
  assert (Hpos : Regex.search (Collector.headerLine ("" ++ Str.nl) 3 header)
                 = Some (String.length "" + 1 + 3)).
  { cbn [Collector.headerLine Str.fill Str.nl append String.length Nat.add].
    rewrite !RegexFacts.search_next
      by (apply RegexFacts.matchHere_first; reflexivity).
    rewrite (RegexFacts.search_here _ Hmatch). reflexivity. }
  rewrite Hrender in Hsrc.
  pose proof (@CollectorFacts.withSourceLocation_header c "" 3 _ Hc Hsrc Hpos)
    as Hw.
  rewrite <- Hrender in Hw.
  change (Collector.commentAbove c ("" ++ Str.nl) 3 header)
    with (Collector.commentAbove c Str.nl 3 header) in Hw.
  assert (Hname : negb (Str.empty name) = true)
    by (destruct Hid as [Hn _]; destruct name; [contradiction | reflexivity]).
  assert (Hb : negb (Str.empty body) = true)
    by (destruct body; [contradiction | reflexivity]).
  clear Hrender Eheader Hpos Hsrc.
  unfold Collector.createFunctionWith, Collector.createFunctionWithBy.
  rewrite Hname.
  cbn [assert bind Collector.run StringMap.count
       Collector.initial Collector.m_requestedFunctions StringMap.empty
       filter List.length Nat.eqb].
  rewrite Hb. cbn [assert bind]. rewrite <- Etext.
  unfold Collector.requestedFunctions, Collector.setFunction, Collector.noteCall.
  cbn [Collector.m_requestedFunctions Collector.called StringMap.assign].
  change (Collector.m_requestedFunctions Collector.initial) with StringMap.empty.
  change (Collector.called Collector.initial) with (@nil string).
  unfold StringMap.empty. cbn [StringMap.assign].
  rewrite StrFacts.compare_refl. cbn [Collector.collect].
  destruct (String.eqb_spec text Collector.STUB) as [E|_]; [contradiction|].
  cbn [negb assert bind]. rewrite Hw. reflexivity.
Qed.

Lemma createFunctionWith_sourceLocation_witness :
  exists rest,
    Collector.render "add" (Collector.joinHumanReadable ["a"; "b"])
      (Collector.joinHumanReadable ["sum"]) "sum := add(a, b)"
    = Collector.headerLine Str.nl 3 rest
    /\ Regex.matchHere rest = true
    /\ (do (_, st) <- Collector.createFunctionWith "add"
                        (Collector.Return (["a"; "b"], ["sum"], "sum := add(a, b)"))
                        Collector.initial;
        Collector.requestedFunctions Examples.srcComment st)
       = Ok (Collector.commentAbove Examples.srcComment Str.nl 3 rest,
             Collector.mkState StringMap.empty ["add"]).
Proof.
  apply (@createFunctionWith_sourceLocation "add" ["a"; "b"] ["sum"]
           "sum := add(a, b)" Examples.srcComment).
  - split; [discriminate | reflexivity].
  - reflexivity.
  - discriminate.
  - discriminate.
  - reflexivity.
Defined.

(** ** Analysis and parsing, further *)

Section AnalysisMore.

Variables Block AsmAnalysisInfo Error EVMVersion : Type.
Variable ObjectParser_parse :
  Dialect EVMVersion -> Scanner -> list Error ->
  option (Object Block AsmAnalysisInfo) * list Error.
Variable AsmAnalyzer_analyze :
  Dialect EVMVersion -> list string -> Block -> list Error ->
  bool * AsmAnalysisInfo * list Error.
Variable qualifiedDataNames : Object Block AsmAnalysisInfo -> list string.
Variable newAsmAnalysisInfo : AsmAnalysisInfo.

Local Abbreviation Object := (Object Block AsmAnalysisInfo).
Local Abbreviation ObjectNode := (ObjectNode Block AsmAnalysisInfo).
Local Abbreviation AssemblyStack := (AssemblyStack Block AsmAnalysisInfo Error EVMVersion).
Local Abbreviation analyzeObject l v :=
  (analyzeParsedObject AsmAnalyzer_analyze qualifiedDataNames newAsmAnalysisInfo l v).
Local Abbreviation run :=
  (parseAndAnalyze ObjectParser_parse AsmAnalyzer_analyze qualifiedDataNames
     newAsmAnalysisInfo).
Local Abbreviation strip :=
  (fun node : ObjectNode =>
     match node with
     | inl d => inl d
     | inr sub => inr (withoutInfo sub)
     end).

(** X8.  The analysis changes nothing but the metadata: names, code,
    data nodes and the order of the sub-nodes of every object are as
    before, whether the analysis succeeds or not. *)
Theorem analyzeParsed_only_metadata
  (_language : Language.t) (_evmVersion : EVMVersion) (o : Object) :
  forall errors ok o' errors',
    analyzeObject _language _evmVersion o errors = Ok (ok, o', errors') ->
    withoutInfo o' = withoutInfo o.
Proof.
  induction o as [n c nodes i IH] using Object_tree_ind.
  intros errors ok o' errors' H. cbn [analyzeParsedObject] in H.
  bind_inv_as H block Hblock.
  destruct (analyzeCode _ _ _ _ _ _ _ _ _) as [[ok0 info] e0].
  bind_inv_as H r Hloop. destruct r as [[ok1 nodes'] e1].
  injection H as _ <- _. cbn [withoutInfo]. f_equal.
  clear Hblock. revert ok0 e0 ok1 nodes' e1 Hloop.
  induction IH as [|[d|sub] rest Hsub _ IHrest]; intros ok0 e0 ok1 nodes' e1 Hloop.
  - injection Hloop as _ <- _. reflexivity.
  - rewrite analyzeSubObjects_inl in Hloop. bind_inv_as Hloop r Hrest.
    destruct r as [[ok2 rest'] e2]. injection Hloop as _ <- _.
    simpl. f_equal. eauto.
  - rewrite analyzeSubObjects_inr in Hloop. bind_inv_as Hloop r Hone.
    destruct r as [[ok2 sub'] e2]. bind_inv_as Hloop r Hrest.
    destruct r as [[ok3 rest'] e3]. injection Hloop as _ <- _.
    simpl. f_equal; [f_equal; eauto | eauto].
Qed.

Lemma parseAndAnalyze_reads (_sourceName _source : string) (st1 st2 : AssemblyStack) :
  st1.(m_language) = st2.(m_language) ->
  st1.(m_evmVersion) = st2.(m_evmVersion) ->
  st1.(m_optimiserSettings) = st2.(m_optimiserSettings) ->
  run _sourceName _source st1 = run _sourceName _source st2.
Proof.
  destruct st1, st2. simpl. intros -> -> ->. reflexivity.
Qed.

Lemma parseAndAnalyze_leaves (_sourceName _source : string) (st : AssemblyStack)
  (ok : bool) (st' : AssemblyStack) :
  run _sourceName _source st = Ok (ok, st') ->
  st'.(m_analysisSuccessful) = ok
  /\ st'.(m_language) = st.(m_language)
  /\ st'.(m_evmVersion) = st.(m_evmVersion)
  /\ st'.(m_optimiserSettings) = st.(m_optimiserSettings)
  /\ st'.(m_scanner) = Some (mkScanner (Some (mkCharStream _source _sourceName))).
Proof.
  unfold parseAndAnalyze. cbn.
  destruct (ObjectParser_parse _ _ _) as [tree diagnostics]. cbn.
  destruct diagnostics as [|e d].
  - intros H. destruct tree as [root|]; cbn in H; [|discriminate H].
    bind_inv_as H u Hcode. unfold analyzeParsed in H. cbn in H.
    bind_inv_as H r Hrun. destruct r as [[success root'] errors].
    injection H as <- <-. repeat split.
  - intros H. injection H as <- <-. repeat split.
Qed.

(** X9.  However a run of [parseAndAnalyze] that returns ends, the
    analysed flag of the job is the value returned, the scanner is the one
    made for the given source and name, and language, EVM version and
    optimiser settings are as before. *)
Theorem parseAndAnalyze_flag (_sourceName _source : string) (st : AssemblyStack)
  (ok : bool) (st' : AssemblyStack) :
  run _sourceName _source st = Ok (ok, st') ->
  st'.(m_analysisSuccessful) = ok
  /\ st'.(m_scanner) = Some (mkScanner (Some (mkCharStream _source _sourceName)))
  /\ st'.(m_language) = st.(m_language)
  /\ st'.(m_evmVersion) = st.(m_evmVersion)
  /\ st'.(m_optimiserSettings) = st.(m_optimiserSettings).
Proof.
  intros H. destruct (parseAndAnalyze_leaves _ _ _ H) as (F & L & V & O & S).
  repeat split; assumption.
Qed.

(** X10.  [parseAndAnalyze] starts afresh: diagnostics, tree, scanner and
    flag of an earlier run do not reach the next one, so repeating a run
    on the job it has left returns the same value and leaves the same
    job. *)
Theorem parseAndAnalyze_again (_sourceName _source : string) (st : AssemblyStack)
  (ok : bool) (st' : AssemblyStack) :
  run _sourceName _source st = Ok (ok, st') ->
  run _sourceName _source st' = Ok (ok, st').
Proof.
  intros H. destruct (parseAndAnalyze_leaves _ _ _ H) as (_ & L & V & O & _).
  rewrite <- H. now apply parseAndAnalyze_reads.
Qed.

End AnalysisMore.

(** ** Optimisation, further *)

Section OptimiseMore.

Variables Block AsmAnalysisInfo Error EVMVersion : Type.
Variable AsmAnalyzer_analyze :
  Dialect EVMVersion -> list string -> Block -> list Error ->
  bool * AsmAnalysisInfo * list Error.
Variable qualifiedDataNames : Object Block AsmAnalysisInfo -> list string.
Variable newAsmAnalysisInfo : AsmAnalysisInfo.
Variable OptimiserSuite_run :
  Dialect EVMVersion -> option (GasMeter EVMVersion) ->
  Object Block AsmAnalysisInfo -> bool -> string -> option nat ->
  list string -> Object Block AsmAnalysisInfo.
Variables (_language : Language.t) (_evmVersion : EVMVersion)
          (_settings : OptimiserSettings).

Local Abbreviation Object := (Object Block AsmAnalysisInfo).
Local Abbreviation ObjectNode := (ObjectNode Block AsmAnalysisInfo).
Local Abbreviation AssemblyStack := (AssemblyStack Block AsmAnalysisInfo Error EVMVersion).
Local Abbreviation SuiteCall := (SuiteCall Block AsmAnalysisInfo EVMVersion).
Local Abbreviation optimizeOne :=
  (optimizeObject OptimiserSuite_run _language _evmVersion _settings).
Local Abbreviation fields :=
  (fun o : Object => (name o, code o, analysisInfo o)).
Local Abbreviation handed :=
  (fun call : SuiteCall => fields call.(sc_object)).

Lemma postorder_unfold (n : string) (c : option Block) (nodes : list ObjectNode)
  (i : option AsmAnalysisInfo) :
  postorder (mkObject n c nodes i)
  = (belowPostorder nodes ++ [mkObject n c nodes i])%list.
Proof. reflexivity. Qed.

(** X11.  [optimize(Object&, bool)] returns exactly when every object of
    the tree has code and metadata; otherwise it is a fatal error,
    whatever the creation flag. *)
Theorem optimizeObject_returns_iff (o : Object) :
  forall _isCreation,
    (exists r, optimizeOne o _isCreation = Ok r)
    <-> Forall (@optimisable _ _) (objects o).
Proof.
  induction o as [n c nodes i IH] using Object_tree_ind.
  intros _isCreation. rewrite objects_unfold. cbn [optimizeObject].
  assert (Hloop : (exists r, optimizeSubObjects optimizeOne nodes = Ok r)
                  <-> Forall (@optimisable _ _) (below nodes)).
  { clear c i. induction IH as [|[d|sub] rest Hsub _ IHrest].
    - split; [constructor | eexists; reflexivity].
    - rewrite optimizeSubObjects_inl. change (below (inl d :: rest)) with (below rest).
      rewrite <- IHrest. split.
      + intros [r H]. bind_inv_as H r' Hrest. eauto.
      + intros [[rest' calls] H]. rewrite H. eexists. reflexivity.
    - rewrite optimizeSubObjects_inr.
      change (below (inr sub :: rest)) with (objects sub ++ below rest)%list.
      rewrite Forall_app, <- IHrest, <- (Hsub false). split.
      + intros [r H]. bind_inv_as H r1 Hone. destruct r1 as [sub' calls1].
        bind_inv_as H r2 Hrest. eauto.
      + intros [[[sub' calls1] Hone] [[rest' calls2] Hrest]].
        rewrite Hone. cbn [bind]. rewrite Hrest. eexists. reflexivity. }
  rewrite Forall_cons_iff, <- Hloop. unfold optimisable, hasCode, hasAnalysisInfo.
  cbn [code analysisInfo]. split.
  - intros [r H]. bind_inv_as H u1 Hc. bind_inv_as H u2 Hi.
    bind_inv_as H r' Hsubs. repeat split; eauto.
  - intros [[Hc Hi] [[nodes' calls] Hsubs]]. rewrite Hc, Hi. cbn [assert bind].
    rewrite Hsubs. eexists. reflexivity.
Qed.

(** X12.  The optimiser suite is run on the objects of the tree children
    first: the objects it is handed are, by name, code and metadata, the
    objects of the tree in post-order, and what is left of the tree is
    what the suite returned for the root in the last call. *)
Theorem optimizeObject_postorder (o : Object) :
  forall _isCreation o' calls,
    optimizeOne o _isCreation = Ok (o', calls) ->
    map handed calls = map fields (postorder o)
    /\ exists nested call,
        calls = (nested ++ [call])%list
        /\ fields call.(sc_object) = fields o
        /\ o' = OptimiserSuite_run call.(sc_dialect) call.(sc_meter)
                  call.(sc_object) call.(sc_optimizeStackAllocation)
                  call.(sc_steps) call.(sc_expectedExecutionsPerDeployment) [].
Proof.
  induction o as [n c nodes i IH] using Object_tree_ind.
  intros _isCreation o' calls H. cbn [optimizeObject] in H.
  bind_inv_as H u1 Hc. bind_inv_as H u2 Hi. bind_inv_as H r Hsubs.
  destruct r as [nodes' nested]. injection H as <- <-.
  assert (Hnested : map handed nested = map fields (belowPostorder nodes)).
  { clear Hc Hi. revert nodes' nested Hsubs.
    induction IH as [|[d|sub] rest Hsub _ IHrest]; intros nodes' nested Hloop.
    - injection Hloop as _ <-. reflexivity.
    - rewrite optimizeSubObjects_inl in Hloop. bind_inv_as Hloop r1 Hrest.
      destruct r1 as [rest' calls']. injection Hloop as _ <-. eauto.
    - rewrite optimizeSubObjects_inr in Hloop. bind_inv_as Hloop r1 Hone.
      destruct r1 as [sub' calls1]. bind_inv_as Hloop r2 Hrest.
      destruct r2 as [rest' calls2]. injection Hloop as _ <-.
      change (belowPostorder (inr sub :: rest))
        with (postorder sub ++ belowPostorder rest)%list.
      rewrite !map_app. f_equal; [exact (proj1 (Hsub _ _ _ Hone)) | eauto]. }
  split.
  - rewrite postorder_unfold, !map_app, Hnested. reflexivity.
  - exists nested. eexists. split; [reflexivity|]. split; reflexivity.
Qed.

(** X13.  When [optimize()] returns with the optimiser switched on, the
    job had passed the analysis before and has passed it again: the flag
    is set, every object of the tree that is left has metadata, the suite
    has been run once per object of the tree, and language, EVM version,
    settings and scanner are as before. *)
Theorem optimize_reanalyzed (st st' : AssemblyStack) (calls : list SuiteCall) :
  st.(m_optimiserSettings).(runYulOptimiser) = true ->
  optimize AsmAnalyzer_analyze qualifiedDataNames newAsmAnalysisInfo
    OptimiserSuite_run st = Ok (st', calls) ->
  st.(m_analysisSuccessful) = true
  /\ st'.(m_analysisSuccessful) = true
  /\ st'.(m_language) = st.(m_language)
  /\ st'.(m_evmVersion) = st.(m_evmVersion)
  /\ st'.(m_optimiserSettings) = st.(m_optimiserSettings)
  /\ st'.(m_scanner) = st.(m_scanner)
  /\ exists root root',
      st.(m_parserResult) = Some root
      /\ st'.(m_parserResult) = Some root'
      /\ Forall (@hasAnalysisInfo _ _) (objects root')
      /\ List.length calls = List.length (objects root).
Proof.
  intros Hon H. unfold optimize in H. rewrite Hon in H. cbn [negb] in H.
  bind_inv_as H u Hflag. bind_inv_as H root Hroot. cbn in Hroot.
  bind_inv_as H r Hopt. destruct r as [root2 calls']. cbn in Hopt.
  bind_inv_as H r Hana. destruct r as [ok st2]. bind_inv_as H u' Hok.
  injection H as <- <-. subst ok.
  unfold analyzeParsed in Hana. cbn in Hana.
  bind_inv_as Hana r Hrun. destruct r as [[success root3] errors].
  injection Hana as -> <-. cbn.
  destruct st.(m_parserResult) as [root0|] eqn:Hp; [|discriminate Hroot].
  injection Hroot as ->.
  split; [exact Hflag|]. repeat (split; [reflexivity|]).
  exists root, root3. split; [reflexivity|]. split; [reflexivity|]. split.
  - pose proof (analyzeParsedObject_hasCode _ _ _ _ _ _ _ Hrun) as Hcode.
    pose proof (@analyzeParsedObject_analyses _ _ _ _ AsmAnalyzer_analyze
                  qualifiedDataNames newAsmAnalysisInfo st.(m_language)
                  st.(m_evmVersion) root2 Hcode st.(m_errors)) as Hspec.
    destruct (analyses _ _ _ _ _ _ _) as [outcomes errors'].
    destruct Hspec as (root3' & Hrun' & Han).
    rewrite Hrun' in Hrun. injection Hrun as _ <- _.
    exact (analysed_hasAnalysisInfo Han).
  - destruct (optimizeObject_calls _ _ _ _ _ _ Hopt) as (nested & call & _ & _ & _ & Hl).
    exact Hl.
Qed.

End OptimiseMore.

(** ** Translating, assembling and printing *)

Section AssembleMore.

Variables Block AsmAnalysisInfo Error AssemblyItem EVMVersion : Type.
Variable ObjectParser_parse :
  Dialect EVMVersion -> Scanner -> list Error ->
  option (Object Block AsmAnalysisInfo) * list Error.
Variable AsmAnalyzer_analyze :
  Dialect EVMVersion -> list string -> Block -> list Error ->
  bool * AsmAnalysisInfo * list Error.
Variable qualifiedDataNames : Object Block AsmAnalysisInfo -> list string.
Variable newAsmAnalysisInfo : AsmAnalysisInfo.
Variable EVMToEwasmTranslator_run :
  Dialect EVMVersion -> Object Block AsmAnalysisInfo -> Object Block AsmAnalysisInfo.
Variable EVMObjectCompiler_compile :
  Object Block AsmAnalysisInfo -> Dialect EVMVersion -> bool -> Assembly AssemblyItem.
Variable assemble : Assembly AssemblyItem -> LinkerObject.
Variable assemblyString : Assembly AssemblyItem -> string.
Variable computeSourceMapping : list AssemblyItem -> list (string * nat) -> string.
Variable WasmObjectCompiler_compile :
  Object Block AsmAnalysisInfo -> Dialect EVMVersion -> string * string.
Variable defaultEVMVersion : EVMVersion.
Variable Object_toString : Object Block AsmAnalysisInfo -> Dialect EVMVersion -> string.

Local Abbreviation Object := (Object Block AsmAnalysisInfo).
Local Abbreviation Assembly := (Assembly AssemblyItem).
Local Abbreviation AssemblyStack := (AssemblyStack Block AsmAnalysisInfo Error EVMVersion).
Local Abbreviation parse :=
  (parseAndAnalyze ObjectParser_parse AsmAnalyzer_analyze qualifiedDataNames
     newAsmAnalysisInfo).
Local Abbreviation translate' := (translate (Error := Error) EVMToEwasmTranslator_run).
Local Abbreviation withDeployed :=
  (assembleWithDeployed (Block := Block) (AsmAnalysisInfo := AsmAnalysisInfo)
     (Error := Error) EVMObjectCompiler_compile assemble assemblyString
     computeSourceMapping).
Local Abbreviation assembleFor :=
  (AssemblyStack_assemble (Error := Error) EVMObjectCompiler_compile assemble
     assemblyString computeSourceMapping WasmObjectCompiler_compile
     defaultEVMVersion).
Local Abbreviation compile st :=
  (compileEVM (Error := Error) EVMObjectCompiler_compile st
     st.(m_optimiserSettings).(optimizeStackAllocation)).
Local Abbreviation objectOf' :=
  (objectOf assemble assemblyString computeSourceMapping).
Local Abbreviation print' := (print (Error := Error) Object_toString).

(** X14.  After a translation that returns, the language of the job is
    the target, so that the same translation again changes nothing; and
    from Ewasm there is no translation to another language. *)
Theorem translate_again (_targetLanguage : Language.t) (st st' : AssemblyStack) :
  translate' _targetLanguage st = Ok st' ->
  st'.(m_language) = _targetLanguage
  /\ translate' _targetLanguage st' = Ok st'
  /\ forall other,
      other <> _targetLanguage ->
      _targetLanguage = Language.Ewasm \/ st.(m_language) = Language.Ewasm ->
      translate' other st' = Fatal "Invalid language combination".
Proof.
  intros H.
  assert (Hl : st'.(m_language) = _targetLanguage).
  { unfold translate in H.
    destruct (Language_eqb_spec st.(m_language) _targetLanguage) as [E|_].
    - injection H as <-. exact E.
    - bind_inv_as H u Hpair. bind_inv_as H root Hroot. injection H as <-.
      reflexivity. }
  assert (Hewasm : _targetLanguage = Language.Ewasm
                   \/ st.(m_language) = Language.Ewasm ->
                   st'.(m_language) = Language.Ewasm).
  { intros [E|E]; [congruence|]. unfold translate in H.
    destruct (Language_eqb_spec st.(m_language) _targetLanguage) as [E'|_].
    - injection H as <-. exact E.
    - rewrite E in H. discriminate H. }
  split; [exact Hl|]. split.
  - unfold translate. rewrite Hl.
    destruct (Language_eqb_spec _targetLanguage _targetLanguage);
      [reflexivity | contradiction].
  - intros other Hother Hcase. unfold translate.
    rewrite (Hewasm Hcase).
    destruct (Language_eqb_spec Language.Ewasm other) as [E|_];
      [|reflexivity].
    exfalso. apply Hother. rewrite <- E, <- (Hewasm Hcase). exact Hl.
Qed.

(** X15.  A job assembles for one machine at most: [assemble] returns for
    the EVM only when the language is not Ewasm and for Ewasm only when it
    is, and what it returns for Ewasm has the compiler's text and bytes,
    no open reference and no source mappings. *)
Theorem assemble_machine_language (st : AssemblyStack) :
  (forall object, assembleFor Machine.EVM st = Ok object ->
                  st.(m_language) <> Language.Ewasm
                  /\ exists deployed, withDeployed None st = Ok (object, deployed))
  /\ (forall object,
        assembleFor Machine.Ewasm st = Ok object ->
        st.(m_language) = Language.Ewasm
        /\ exists root,
            st.(m_parserResult) = Some root
            /\ object.(mao_assembly)
               = fst (WasmObjectCompiler_compile root (WasmDialect_instance EVMVersion))
            /\ object.(mao_bytecode)
               = Some (mkLinkerObject
                         (snd (WasmObjectCompiler_compile root (WasmDialect_instance EVMVersion)))
                         [] [])
            /\ object.(mao_sourceMappings) = None)
  /\ ~ (exists evm ewasm,
          assembleFor Machine.EVM st = Ok evm
          /\ assembleFor Machine.Ewasm st = Ok ewasm).
Proof.
  assert (Hevm : forall object, assembleFor Machine.EVM st = Ok object ->
                   st.(m_language) <> Language.Ewasm
                   /\ exists deployed, withDeployed None st = Ok (object, deployed)).
  { intros object H. unfold AssemblyStack_assemble in H.
    bind_inv_as H u1 Hflag. bind_inv_as H root Hroot. bind_inv_as H u2 Hc.
    bind_inv_as H u3 Hi. bind_inv_as H r Hpair. destruct r as [creation deployed].
    injection H as <-. split; [|eauto].
    destruct (assembleWithDeployed_requires _ _ _ _ _ _ Hpair)
      as (root' & assembly & _ & _ & _ & _ & Hcompile).
    intros E. unfold compileEVM in Hcompile. rewrite E in Hcompile.
    discriminate Hcompile. }
  assert (Hwasm : forall object, assembleFor Machine.Ewasm st = Ok object ->
                    st.(m_language) = Language.Ewasm
                    /\ exists root,
                        st.(m_parserResult) = Some root
                        /\ object.(mao_assembly)
                           = fst (WasmObjectCompiler_compile root (WasmDialect_instance EVMVersion))
                        /\ object.(mao_bytecode)
                           = Some (mkLinkerObject
                                     (snd (WasmObjectCompiler_compile root
                                             (WasmDialect_instance EVMVersion))) [] [])
                        /\ object.(mao_sourceMappings) = None).
  { intros object H. unfold AssemblyStack_assemble in H.
    bind_inv_as H u1 Hflag. bind_inv_as H root Hroot. bind_inv_as H u2 Hc.
    bind_inv_as H u3 Hi. bind_inv_as H u4 Hl.
    destruct (Language_eqb_spec st.(m_language) Language.Ewasm) as [E|_];
      [|discriminate Hl].
    split; [exact E|]. rewrite E in H. injection H as <-.
    destruct st.(m_parserResult) as [root0|]; [|discriminate Hroot].
    injection Hroot as ->. exists root. repeat split. }
  split; [exact Hevm|]. split; [exact Hwasm|].
  intros (evm & ewasm & H1 & H2).
  exact (proj1 (Hevm _ H1) (proj1 (Hwasm _ H2))).
Qed.

(** X16.  Once an analyzed job in strict assembly has been translated to
    Ewasm, assembling it for the EVM is a fatal error, and assembling it
    for Ewasm returns exactly when the translated tree has code and
    metadata. *)
Theorem translate_then_assemble (st st' : AssemblyStack) :
  st.(m_language) = Language.StrictAssembly ->
  translate' Language.Ewasm st = Ok st' ->
  (forall object, assembleFor Machine.EVM st' <> Ok object)
  /\ exists root,
      st.(m_parserResult) = Some root
      /\ let translated :=
           EVMToEwasmTranslator_run
             (strictAssemblyForEVMObjects st.(m_evmVersion)) root in
         ((exists object, assembleFor Machine.Ewasm st' = Ok object)
          <-> optimisable translated).
Proof.
  intros Hl H. unfold translate in H. rewrite Hl in H. cbn in H.
  unfold parserResult in H. bind_inv_as H root Hroot.
  bind_inv_as Hroot u1 Hflag. bind_inv_as Hroot root0 Hp.
  bind_inv_as Hroot u2 Hc. injection Hroot as ->. injection H as <-.
  destruct st.(m_parserResult) as [root1|] eqn:Hres; [|discriminate Hp].
  injection Hp as ->. split.
  - intros object Hevm. unfold AssemblyStack_assemble in Hevm.
    bind_inv_as Hevm v1 H1. bind_inv_as Hevm r1 H2. bind_inv_as Hevm v2 H3.
    bind_inv_as Hevm v3 H4. bind_inv_as Hevm r Hpair.
    destruct r as [creation deployed].
    destruct (assembleWithDeployed_requires _ _ _ _ _ _ Hpair)
      as (root' & assembly & _ & _ & _ & _ & Hcompile).
    discriminate Hcompile.
  - exists root. split; [reflexivity|]. cbn zeta.
    unfold AssemblyStack_assemble, optimisable, hasCode, hasAnalysisInfo.
    cbn [m_analysisSuccessful m_parserResult m_language setLanguage
         setParserResult require bind]. rewrite Hflag. cbn [assert bind].
    destruct (present (code (EVMToEwasmTranslator_run
                               (strictAssemblyForEVMObjects (m_evmVersion st)) root)));
      cbn [assert bind].
    + destruct (present (analysisInfo
                           (EVMToEwasmTranslator_run
                              (strictAssemblyForEVMObjects (m_evmVersion st)) root)));
        cbn [assert bind Language.eqb].
      * split; [auto | eexists; reflexivity].
      * split; [intros [o Ho]; discriminate Ho | intros [_ Hi]; discriminate Hi].
    + split; [intros [o Ho]; discriminate Ho | intros [Hc' _]; discriminate Hc'].
Qed.

(** What a run of [parseAndAnalyze] that reaches the analysis leaves. *)
Lemma parseAndAnalyze_tree (_sourceName _source : string) (st : AssemblyStack)
  (ok : bool) (st' : AssemblyStack) (tree : option Object) :
  ObjectParser_parse (languageToDialect st.(m_language) st.(m_evmVersion))
    (mkScanner (Some (mkCharStream _source _sourceName))) [] = (tree, []) ->
  parse _sourceName _source st = Ok (ok, st') ->
  exists root',
    st'.(m_parserResult) = Some root'
    /\ hasCode root' /\ hasAnalysisInfo root'.
Proof.
  intros Hparsed H.
  destruct (@parseAndAnalyze_returns _ _ _ _ ObjectParser_parse AsmAnalyzer_analyze
              qualifiedDataNames newAsmAnalysisInfo _sourceName _source st
              tree [] Hparsed ok st' H eq_refl)
    as (root & Ht & Hc).
  pose proof (@parseAndAnalyze_analysis _ _ _ _ ObjectParser_parse AsmAnalyzer_analyze
              qualifiedDataNames newAsmAnalysisInfo _sourceName _source st
              tree [] Hparsed root eq_refl Ht Hc) as Hrun.
  destruct (analyses _ _ _ _ _ _ _) as [outcomes errors].
  destruct Hrun as (st'' & root' & Hrun & _ & _ & Hres & Han).
  rewrite Hrun in H. injection H as _ <-.
  exists root'. split; [exact Hres|].
  pose proof (analysed_hasAnalysisInfo Han) as Hinfo.
  destruct Han as (_ & _ & Hcode).
  destruct root as [n c nodes i], root' as [n' c' nodes' i'].
  rewrite !objects_unfold in *. cbn [map] in Hcode.
  injection Hcode as Hc0 _. inversion Hc as [|? ? Hroot _]; subst.
  inversion Hinfo as [|? ? Hroot' _]; subst.
  split; [|exact Hroot']. unfold hasCode in *. cbn [code] in *. congruence.
Qed.

(** X17.  After [parseAndAnalyze] has returned true for a language other
    than Ewasm, none of the entry assertions of [assembleWithDeployed] can
    fail: with an immutable reference left in the linked bytes the call is
    the fatal error for that, and otherwise, without a deploy name, it
    returns the creation object and the deployed object of the only
    sub-assembly, if there is exactly one, with source mappings over the
    source name given to [parseAndAnalyze]. *)
Theorem parseAndAnalyze_then_assemble
  (_sourceName _source : string) (st st' : AssemblyStack) :
  parse _sourceName _source st = Ok (true, st') ->
  st.(m_language) <> Language.Ewasm ->
  exists root assembly,
    st'.(m_parserResult) = Some root
    /\ assembly
       = EVMObjectCompiler_compile root
           (languageToDialect st.(m_language) st.(m_evmVersion))
           st.(m_optimiserSettings).(optimizeStackAllocation)
    /\ ((assemble assembly).(immutableReferences) <> [] ->
        forall _deployName,
          withDeployed _deployName st' = Fatal "Leftover immutables.")
    /\ ((assemble assembly).(immutableReferences) = [] ->
        withDeployed None st'
        = Ok (objectOf' _sourceName assembly,
              match subs assembly with
              | [a] => objectOf' _sourceName a
              | _ => emptyObject
              end)).
Proof.
  intros H Hlang.
  destruct (@parseAndAnalyze_leaves _ _ _ _ ObjectParser_parse AsmAnalyzer_analyze
              qualifiedDataNames newAsmAnalysisInfo _sourceName _source st
              true st' H) as (Hflag & Hl & Hv & Ho & Hs).
  destruct (ObjectParser_parse (languageToDialect st.(m_language) st.(m_evmVersion))
              (mkScanner (Some (mkCharStream _source _sourceName))) [])
    as [tree diagnostics] eqn:Hparsed.
  destruct (nil_or_not diagnostics) as [->|Hd].
  2:{ destruct (@parseAndAnalyze_diagnostics _ _ _ _ ObjectParser_parse AsmAnalyzer_analyze
              qualifiedDataNames newAsmAnalysisInfo _sourceName _source st
              tree diagnostics Hparsed Hd)
        as (st'' & H' & _). rewrite H' in H. discriminate H. }
  destruct (@parseAndAnalyze_tree _sourceName _source st true st' tree Hparsed H)
    as (root & Hres & Hc & Hi).
  set (assembly := EVMObjectCompiler_compile root
                     (languageToDialect st.(m_language) st.(m_evmVersion))
                     st.(m_optimiserSettings).(optimizeStackAllocation)).
  assert (Hcompile : compile st' = Ok assembly).
  { unfold compileEVM. rewrite Hl, Hv, Ho, Hres. subst assembly.
    destruct st.(m_language); try reflexivity. contradiction. }
  exists root, assembly. split; [exact Hres|]. split; [reflexivity|]. split.
  - intros Himm _deployName.
    rewrite (@assembleWithDeployed_creation _ _ _ _ _ EVMObjectCompiler_compile
               assemble assemblyString computeSourceMapping _deployName st' root
               assembly Hflag Hres Hc Hi Hcompile).
    destruct (immutableReferences (assemble assembly));
      [contradiction | reflexivity].
  - intros Himm.
    rewrite (@assembleWithDeployed_creation _ _ _ _ _ EVMObjectCompiler_compile
               assemble assemblyString computeSourceMapping None st' root
               assembly Hflag Hres Hc Hi Hcompile), Himm.
    unfold machineObject, sourceName, numSubs, sub. rewrite Hs.
    cbn [assert bind require charStream cs_name].
    destruct (subs assembly) as [|a [|b rest]]; reflexivity.
Qed.

(** X18.  Naming the only sub-assembly changes nothing: when the job
    compiles to an assembly whose one sub-assembly bears the deploy name,
    [assembleWithDeployed] does with the name what it does without. *)
Theorem assembleWithDeployed_only_sub
  (st : AssemblyStack) (assembly a : Assembly) (n : string) :
  compile st = Ok assembly ->
  subs assembly = [a] -> asm_name a = n ->
  withDeployed (Some n) st = withDeployed None st.
Proof.
  intros Hcompile Hsubs Hname. unfold assembleWithDeployed.
  destruct st.(m_analysisSuccessful); [|reflexivity]. cbn [assert bind].
  destruct st.(m_parserResult) as [root|]; [|reflexivity]. cbn [require bind].
  destruct (present (code root)); [|reflexivity]. cbn [assert bind].
  destruct (present (analysisInfo root)); [|reflexivity]. cbn [assert bind].
  rewrite Hcompile. cbn [bind].
  destruct (immutableReferences (assemble assembly)); [|reflexivity].
  cbn [assert bind].
  destruct (machineObject assemble assemblyString computeSourceMapping st assembly);
    [|reflexivity].
  cbn [bind]. unfold numSubs. rewrite Hsubs. cbn [findSub List.length Nat.eqb].
  rewrite Hname, String.eqb_refl. reflexivity.
Qed.

(** X19.  The loop over the sub-assemblies stops at the first that bears
    the deploy name: with several of that name the first is deployed. *)
Theorem assembleWithDeployed_first_of_name
  (st : AssemblyStack) (root : Object) (assembly : Assembly) (scanner_ : Scanner)
  (n : string) (i : nat) (a : Assembly) :
  st.(m_analysisSuccessful) = true ->
  st.(m_parserResult) = Some root ->
  hasCode root -> hasAnalysisInfo root ->
  compile st = Ok assembly ->
  (assemble assembly).(immutableReferences) = [] ->
  st.(m_scanner) = Some scanner_ ->
  nth_error (subs assembly) i = Some a -> asm_name a = n ->
  (forall j b, j < i -> nth_error (subs assembly) j = Some b -> asm_name b <> n) ->
  exists creationObject,
    withDeployed (Some n) st
    = Ok (creationObject,
          mkMachineAssemblyObject (Some (assemble a)) (assemblyString a)
            (Some (computeSourceMapping (items a)
                     [(match scanner_.(charStream) with
                       | Some stream => stream.(cs_name)
                       | None => ""
                       end, 0)]))).
Proof.
  intros Ha Hp Hc Hi Hcompile Himm Hscan Hnth Hname Hfirst.
  eexists.
  exact (@assembleWithDeployed_first _ _ _ _ _ EVMObjectCompiler_compile assemble
           assemblyString computeSourceMapping st root assembly scanner_ n i a
           Ha Hp Hc Hi Hcompile Himm Hscan Hnth Hname Hfirst).
Qed.

(** X20.  [print()] asks for the tree and its code only: after any run of
    [parseAndAnalyze] that gets past parsing it returns the text of the
    tree followed by a line break, also when the analysis has failed and
    [parserResult()] is a fatal error. *)
Theorem print_after_parseAndAnalyze
  (_sourceName _source : string) (st : AssemblyStack)
  (ok : bool) (st' : AssemblyStack) (tree : option Object) :
  ObjectParser_parse (languageToDialect st.(m_language) st.(m_evmVersion))
    (mkScanner (Some (mkCharStream _source _sourceName))) [] = (tree, []) ->
  parse _sourceName _source st = Ok (ok, st') ->
  (exists root',
      st'.(m_parserResult) = Some root'
      /\ print' st'
         = Ok (Object_toString root'
                 (languageToDialect st.(m_language) st.(m_evmVersion)) ++ Str.nl))
  /\ (ok = false -> parserResult st' = Fatal "Analysis was not successful.").
Proof.
  intros Hparsed H.
  destruct (@parseAndAnalyze_leaves _ _ _ _ ObjectParser_parse AsmAnalyzer_analyze
              qualifiedDataNames newAsmAnalysisInfo _sourceName _source st
              ok st' H) as (Hflag & Hl & Hv & _).
  destruct (@parseAndAnalyze_tree _sourceName _source st ok st' tree Hparsed H)
    as (root' & Hres & Hc & _).
  split.
  - exists root'. split; [exact Hres|]. unfold print. rewrite Hres, Hl, Hv.
    cbn [require bind]. unfold hasCode in Hc. rewrite Hc. reflexivity.
  - intros ->. unfold parserResult. rewrite Hflag. reflexivity.
Qed.

End AssembleMore.

(** ** The further properties on concrete jobs *)

Lemma analyzeParsed_only_metadata_witness :
  withoutInfo (Examples.tree 0 (Some 1) (Some 0))
  = withoutInfo (Examples.tree 0 None None).
Proof.
  apply (@analyzeParsed_only_metadata _ _ _ _ Examples.analyze Examples.names 0
           Language.Yul tt (Examples.tree 0 None None) [] false
           (Examples.tree 0 (Some 1) (Some 0)) ["invalid block"]).
  reflexivity.
Defined.

Lemma parseAndAnalyze_flag_witness :
  (Examples.failedJob Language.Yul).(m_analysisSuccessful) = false
  /\ (Examples.failedJob Language.Yul).(m_scanner)
     = Some (mkScanner (Some (mkCharStream "invalid" "input.yul")))
  /\ (Examples.failedJob Language.Yul).(m_language)
     = (Examples.job Language.Yul).(m_language)
  /\ (Examples.failedJob Language.Yul).(m_evmVersion)
     = (Examples.job Language.Yul).(m_evmVersion)
  /\ (Examples.failedJob Language.Yul).(m_optimiserSettings)
     = (Examples.job Language.Yul).(m_optimiserSettings).
Proof.
  apply (@parseAndAnalyze_flag _ _ _ _ Examples.parse Examples.analyze
           Examples.names 0 "input.yul" "invalid" (Examples.job Language.Yul)).
  reflexivity.
Defined.

Lemma parseAndAnalyze_again_witness :
  parseAndAnalyze Examples.parse Examples.analyze Examples.names 0
    "input.yul" "invalid" (Examples.failedJob Language.Yul)
  = Ok (false, Examples.failedJob Language.Yul).
Proof.
  apply (@parseAndAnalyze_again _ _ _ _ Examples.parse Examples.analyze
           Examples.names 0 "input.yul" "invalid" (Examples.job Language.Yul)).
  reflexivity.
Defined.

Lemma optimizeObject_returns_iff_witness :
  exists r,
    optimizeObject Examples.suite Language.Yul tt Examples.settings
      Examples.analyzedTree true = Ok r.
Proof.
  apply (proj2 (@optimizeObject_returns_iff _ _ _ Examples.suite Language.Yul tt
                  Examples.settings Examples.analyzedTree true)).
  repeat constructor.
Defined.

Lemma optimizeObject_postorder_witness :
  map (fun call : SuiteCall nat nat unit =>
         (name call.(sc_object), code call.(sc_object),
          analysisInfo call.(sc_object)))
      [mkSuiteCall (WasmDialect_instance unit) None
         (Examples.runtime 2 (Some 2)) true "dhfoDgvulfnTUtnIf" (Some 200);
       mkSuiteCall (WasmDialect_instance unit) None
         Examples.analyzedTree true "dhfoDgvulfnTUtnIf" None]
  = map (fun o : Object nat nat => (name o, code o, analysisInfo o))
        (postorder Examples.analyzedTree).
Proof.
  exact (proj1 (@optimizeObject_postorder _ _ _ Examples.suite Language.Ewasm tt
                  Examples.settings Examples.analyzedTree true
                  Examples.analyzedTree _ eq_refl)).
Defined.

Lemma optimize_reanalyzed_witness :
  (Examples.analyzedJob Language.Yul).(m_analysisSuccessful) = true
  /\ (Examples.analyzedJob Language.Yul).(m_analysisSuccessful) = true
  /\ (Examples.analyzedJob Language.Yul).(m_language)
     = (Examples.analyzedJob Language.Yul).(m_language)
  /\ (Examples.analyzedJob Language.Yul).(m_evmVersion)
     = (Examples.analyzedJob Language.Yul).(m_evmVersion)
  /\ (Examples.analyzedJob Language.Yul).(m_optimiserSettings)
     = (Examples.analyzedJob Language.Yul).(m_optimiserSettings)
  /\ (Examples.analyzedJob Language.Yul).(m_scanner)
     = (Examples.analyzedJob Language.Yul).(m_scanner)
  /\ exists root root',
      (Examples.analyzedJob Language.Yul).(m_parserResult) = Some root
      /\ (Examples.analyzedJob Language.Yul).(m_parserResult) = Some root'
      /\ Forall (@hasAnalysisInfo _ _) (objects root')
      /\ 2 = List.length (objects root).
Proof.
  exact (@optimize_reanalyzed _ _ _ _ Examples.analyze Examples.names 0
           Examples.suite (Examples.analyzedJob Language.Yul)
           (Examples.analyzedJob Language.Yul)
           [mkSuiteCall (EVMDialectTyped_instance tt)
              (Some (mkGasMeter (EVMDialectTyped_instance tt) false 200))
              (Examples.runtime 2 (Some 2)) true "dhfoDgvulfnTUtnIf" (Some 200);
            mkSuiteCall (EVMDialectTyped_instance tt)
              (Some (mkGasMeter (EVMDialectTyped_instance tt) true 200))
              Examples.analyzedTree true "dhfoDgvulfnTUtnIf" None]
           eq_refl eq_refl).
Defined.

Lemma translate_again_witness :
  (mkAssemblyStack Language.Ewasm tt Examples.settings
        (Examples.scanned "valid") true
        (Some (Examples.translateTree (strictAssemblyForEVMObjects tt)
                 Examples.analyzedTree))
        (@nil string)).(m_language)
  = Language.Ewasm
  /\ translate Examples.translateTree Language.Ewasm
       (mkAssemblyStack Language.Ewasm tt Examples.settings
        (Examples.scanned "valid") true
        (Some (Examples.translateTree (strictAssemblyForEVMObjects tt)
                 Examples.analyzedTree))
        (@nil string))
     = Ok (mkAssemblyStack Language.Ewasm tt Examples.settings
        (Examples.scanned "valid") true
        (Some (Examples.translateTree (strictAssemblyForEVMObjects tt)
                 Examples.analyzedTree))
        (@nil string))
  /\ forall other,
      other <> Language.Ewasm ->
      Language.Ewasm = Language.Ewasm
      \/ (Examples.analyzedJob Language.StrictAssembly).(m_language) = Language.Ewasm ->
      translate Examples.translateTree other
        (mkAssemblyStack Language.Ewasm tt Examples.settings
        (Examples.scanned "valid") true
        (Some (Examples.translateTree (strictAssemblyForEVMObjects tt)
                 Examples.analyzedTree))
        (@nil string))
      = Fatal "Invalid language combination".
Proof.
  apply (@translate_again _ _ string _ Examples.translateTree Language.Ewasm
           (Examples.analyzedJob Language.StrictAssembly)).
  reflexivity.
Defined.

Lemma assemble_machine_language_witness :
  (Examples.analyzedJob Language.Yul).(m_language) <> Language.Ewasm
  /\ exists deployed,
      assembleWithDeployed Examples.compile Examples.link Examples.text
        Examples.sourceMapping None (Examples.analyzedJob Language.Yul)
      = Ok (mkMachineAssemblyObject
              (Some (Examples.link (Examples.compileObject Examples.analyzedTree)))
              "assembly creation" (Some "0:0:0"),
            deployed).
Proof.
  apply (proj1 (@assemble_machine_language _ _ string _ _ Examples.compile
                  Examples.link Examples.text Examples.sourceMapping
                  Examples.compileWasm tt (Examples.analyzedJob Language.Yul))).
  reflexivity.
Defined.

Lemma translate_then_assemble_witness :
  (forall object,
      AssemblyStack_assemble Examples.compile Examples.link Examples.text
        Examples.sourceMapping Examples.compileWasm tt Machine.EVM
        (mkAssemblyStack Language.Ewasm tt Examples.settings
        (Examples.scanned "valid") true
        (Some (Examples.translateTree (strictAssemblyForEVMObjects tt)
                 Examples.analyzedTree))
        (@nil string))
      <> Ok object)
  /\ exists root,
      (Examples.analyzedJob Language.StrictAssembly).(m_parserResult) = Some root
      /\ ((exists object,
              AssemblyStack_assemble Examples.compile Examples.link Examples.text
                Examples.sourceMapping Examples.compileWasm tt Machine.Ewasm
                (mkAssemblyStack Language.Ewasm tt Examples.settings
        (Examples.scanned "valid") true
        (Some (Examples.translateTree (strictAssemblyForEVMObjects tt)
                 Examples.analyzedTree))
        (@nil string))
              = Ok object)
          <-> optimisable
                (Examples.translateTree
                   (strictAssemblyForEVMObjects
                      (Examples.analyzedJob Language.StrictAssembly).(m_evmVersion))
                   root)).
Proof.
  apply (@translate_then_assemble _ _ string _ _ Examples.translateTree
           Examples.compile Examples.link Examples.text Examples.sourceMapping
           Examples.compileWasm tt (Examples.analyzedJob Language.StrictAssembly)).
  - reflexivity.
  - reflexivity.
Defined.

Lemma parseAndAnalyze_then_assemble_witness :
  exists root assembly,
    (Examples.analyzedJob Language.Yul).(m_parserResult) = Some root
    /\ assembly
       = Examples.compile root
           (languageToDialect (Examples.job Language.Yul).(m_language)
              (Examples.job Language.Yul).(m_evmVersion))
           (Examples.job Language.Yul).(m_optimiserSettings).(optimizeStackAllocation)
    /\ ((Examples.link assembly).(immutableReferences) <> [] ->
        forall _deployName,
          assembleWithDeployed Examples.compile Examples.link Examples.text
            Examples.sourceMapping _deployName (Examples.analyzedJob Language.Yul)
          = Fatal "Leftover immutables.")
    /\ ((Examples.link assembly).(immutableReferences) = [] ->
        assembleWithDeployed Examples.compile Examples.link Examples.text
          Examples.sourceMapping None (Examples.analyzedJob Language.Yul)
        = Ok (objectOf Examples.link Examples.text Examples.sourceMapping
                "input.yul" assembly,
              match subs assembly with
              | [a] => objectOf Examples.link Examples.text Examples.sourceMapping
                         "input.yul" a
              | _ => emptyObject
              end)).
Proof.
  apply (@parseAndAnalyze_then_assemble _ _ _ _ _ Examples.parse Examples.analyze
           Examples.names 0 Examples.compile Examples.link Examples.text
           Examples.sourceMapping "input.yul" "valid" (Examples.job Language.Yul)).
  - reflexivity.
  - discriminate.
Defined.

Lemma assembleWithDeployed_only_sub_witness :
  assembleWithDeployed Examples.compile Examples.link Examples.text
    Examples.sourceMapping (Some "runtime") (Examples.analyzedJob Language.Yul)
  = assembleWithDeployed Examples.compile Examples.link Examples.text
      Examples.sourceMapping None (Examples.analyzedJob Language.Yul).
Proof.
  apply (@assembleWithDeployed_only_sub _ _ string _ _ Examples.compile
           Examples.link Examples.text Examples.sourceMapping
           (Examples.analyzedJob Language.Yul)
           (Examples.compileObject Examples.analyzedTree)
           (Examples.compileObject (Examples.runtime 2 (Some 2))) "runtime").
  - reflexivity.
  - reflexivity.
  - reflexivity.
Defined.

Lemma assembleWithDeployed_first_of_name_witness :
  exists creationObject,
    assembleWithDeployed Examples.compile Examples.link Examples.text
      Examples.sourceMapping (Some "runtime") Examples.twinsJob
    = Ok (creationObject,
          mkMachineAssemblyObject
            (Some (Examples.link (mkAssembly "runtime" [2] [])))
            (Examples.text (mkAssembly "runtime" [2] []))
            (Some (Examples.sourceMapping (items (mkAssembly "runtime" [2] []))
                     [(match (mkScanner (Some (mkCharStream "valid" "input.yul"))).(charStream) with
                       | Some stream => stream.(cs_name)
                       | None => ""
                       end, 0)]))).
Proof.
  apply (@assembleWithDeployed_first_of_name _ _ string _ _ Examples.compile
           Examples.link Examples.text Examples.sourceMapping
           Examples.twinsJob Examples.twins (Examples.compileObject Examples.twins)
           (mkScanner (Some (mkCharStream "valid" "input.yul")))
           "runtime" 0 (mkAssembly "runtime" [2] [])).
  - reflexivity.
  - reflexivity.
  - reflexivity.
  - reflexivity.
  - reflexivity.
  - reflexivity.
  - reflexivity.
  - reflexivity.
  - reflexivity.
  - intros j b Hj. lia.
Defined.

Lemma print_after_parseAndAnalyze_witness :
  (exists root',
      (Examples.failedJob Language.Yul).(m_parserResult) = Some root'
      /\ print Examples.toString (Examples.failedJob Language.Yul)
         = Ok (Examples.toString root'
                 (languageToDialect (Examples.job Language.Yul).(m_language)
                    (Examples.job Language.Yul).(m_evmVersion)) ++ Str.nl))
  /\ (false = false ->
      parserResult (Examples.failedJob Language.Yul)
      = Fatal "Analysis was not successful.").
Proof.
  apply (@print_after_parseAndAnalyze _ _ _ _ Examples.parse Examples.analyze
           Examples.names 0 Examples.toString "input.yul" "invalid"
           (Examples.job Language.Yul) false (Examples.failedJob Language.Yul)
           (Some (Examples.tree 0 None None))).
  - reflexivity.
  - reflexivity.
Defined.
